(** * dbt RPC tasks ([core/dbt/task/remote.py]): a shallow embedding

    The development follows the source file top to bottom:
    - [Py]: the few Python primitives the file relies on ([str.join],
      truthiness of a string, [str.format] of an optional value);
    - exceptions ([Exc] for instances of [Exception], [BaseExc] adding
      [KeyboardInterrupt]) and a state-and-exception monad [M];
    - [_RPCExecTask]: [_extract_request_data], [_get_exec_node],
      [_in_thread], [_raise_set_error], [set_args], [handle_request];
    - [RemoteRPCParameters]: [set_args], [get_rpc_task_cls],
      [handle_request];
    - [Demo]: a small concrete set of collaborators to run the model on;
    - the properties, and runs of the model on [Demo].

    Collaborators of [_RPCExecTask] that live outside [remote.py] (lexer,
    parsers, adapter, runner) are fields of the [Collaborators] class; those
    of [RemoteRPCParameters] (shell lexer, argument parser, the enumeration
    of handler types) are variables of its section. *)

From stdpp Require Import base gmap strings list fin_maps.
From Stdlib Require Import ZArith Lia Ascii.

Open Scope string_scope.
Open Scope list_scope.

(** ** Python primitives *)

Module Py.

(** The one-character string ['\n']. *)
Definition newline : string := String (Ascii.ascii_of_nat 10) EmptyString.

(** [sep.join(l)]. *)
Fixpoint join (sep : string) (l : list string) : string :=
  match l with
  | [] => ""
  | [x] => x
  | x :: rest => x +:+ sep +:+ join sep rest
  end.

(** Truthiness of a [str]: only the empty string is falsy. *)
Definition truthy (s : string) : bool :=
  match s with
  | EmptyString => false
  | String _ _ => true
  end.

(** [str(x)] / ['{}'.format(x)] of a value that is a [str] or [None]. *)
Definition str (o : option string) : string :=
  match o with
  | Some s => s
  | None => "None"
  end.

(** [x == y] on values that are a [str] or [None]. *)
Definition eqb (x y : option string) : bool := bool_decide (x = y).

End Py.

(** ** Exceptions *)

(** [signal.SIGINT]. *)
Definition SIGINT : Z := 2.

(** Instances of [Exception]: what [except Exception] catches.  The dbt
    classes that the file names have a constructor each; any other
    exception class is [PyException cls msg]. *)
Inductive Exc : Type :=
| InternalException (msg : string)
| RPCKilledException (signum : Z)
| CompilationException (msg : string)
| RuntimeException (msg : string)
| PyException (cls msg : string).

(** What a [raise] can propagate: an [Exception], or the
    [KeyboardInterrupt] that the interpreter raises on the main thread
    (a [BaseException] that [except Exception] does not catch). *)
Inductive BaseExc : Type :=
| Exception (e : Exc)
| KeyboardInterrupt.

#[global] Instance Exc_eq_dec : EqDecision Exc.
Proof. solve_decision. Defined.
#[global] Instance BaseExc_eq_dec : EqDecision BaseExc.
Proof. solve_decision. Defined.

(** [str(exc)], as used in the worker's debug line. *)
Definition exc_str (e : Exc) : string :=
  match e with
  | InternalException msg => msg
  | RPCKilledException signum => "RPC process killed by signal"
  | CompilationException msg => msg
  | RuntimeException msg => msg
  | PyException _ msg => msg
  end.

(** The error taxonomy: an internal (contract-violation) error against a
    user-facing validation error. *)
Definition is_internal_error (e : Exc) : bool :=
  match e with InternalException _ => true | _ => false end.

Definition is_validation_error (e : Exc) : bool :=
  match e with
  | CompilationException _ | RuntimeException _ => true
  | _ => false
  end.

(** Pure fallible computations: [inl e] is [raise e]. *)
Definition bindE {A B} (c : Exc + A) (k : A → Exc + B) : Exc + B :=
  match c with
  | inl e => inl e
  | inr a => k a
  end.

(** ** The state-and-exception monad

    [Ret a] is a normal return, [Raise e] an exception in flight and
    [Blocked] a thread that waits on an event nobody will ever set. *)

Inductive Outcome (A : Type) : Type :=
| Ret (a : A)
| Raise (e : BaseExc)
| Blocked.
Arguments Ret {A} a.
Arguments Raise {A} e.
Arguments Blocked {A}.

Definition M (S A : Type) : Type := S → S * Outcome A.

Section Monad.
Context {S : Type}.

Definition ret {A} (a : A) : M S A := λ s, (s, Ret a).

Definition bind {A B} (c : M S A) (k : A → M S B) : M S B :=
  λ s, match c s with
       | (s', Ret a) => k a s'
       | (s', Raise e) => (s', Raise e)
       | (s', Blocked) => (s', Blocked)
       end.

Definition raise {A} (e : BaseExc) : M S A := λ s, (s, Raise e).
Definition blocked {A} : M S A := λ s, (s, Blocked).
Definition get : M S S := λ s, (s, Ret s).
Definition modify (f : S → S) : M S unit := λ s, (f s, Ret tt).

(** A pure fallible call made from stateful code. *)
Definition lift {A} (c : Exc + A) : M S A :=
  match c with
  | inl e => raise (Exception e)
  | inr a => ret a
  end.

(** [try: body except Exception as exc: handler(exc)]. *)
Definition try_except_Exception {A} (body : M S A) (handler : Exc → M S A)
  : M S A :=
  λ s, match body s with
       | (s', Raise (Exception exc)) => handler exc s'
       | r => r
       end.

(** [try: body except KeyboardInterrupt: handler]. *)
Definition try_except_KeyboardInterrupt {A} (body : M S A) (handler : M S A)
  : M S A :=
  λ s, match body s with
       | (s', Raise KeyboardInterrupt) => handler s'
       | r => r
       end.

(** [try: body finally: cleanup]: the cleanup runs on a return and on an
    exception; an exception of the cleanup replaces the pending one. *)
Definition try_finally {A} (body : M S A) (cleanup : M S unit) : M S A :=
  λ s, match body s with
       | (s', Blocked) => (s', Blocked)
       | (s', r) =>
           match cleanup s' with
           | (s'', Ret _) => (s'', r)
           | (s'', Raise e) => (s'', Raise e)
           | (s'', Blocked) => (s'', Blocked)
           end
       end.

(** [for x in l: body(x)]. *)
Fixpoint for_each {A} (l : list A) (body : A → M S unit) : M S unit :=
  match l with
  | [] => ret tt
  | x :: rest => bind (body x) (λ _, for_each rest body)
  end.
End Monad.

Declare Scope monad_scope.
Delimit Scope monad_scope with M.
Notation "x <- c ;; k" := (bind c (λ x, k))
  (at level 20, c at level 99, k at level 200, only parsing) : monad_scope.
Notation "' pat <- c ;; k" := (bind c (λ x, match x with pat => k end))
  (at level 20, pat pattern, c at level 99, k at level 200, only parsing)
  : monad_scope.
Notation "c ;; k" := (bind c (λ _, k))
  (at level 100, k at level 200, right associativity, only parsing)
  : monad_scope.

(** ** Data of the request *)

(** A top-level block of the template lexer: a tag block ([macro], ...) or
    a raw data block.  The splitter reads only these two attributes. *)
Record Block := { block_type_name : string; full_block : string }.

(** [RPCExecParameters]. *)
Record RPCExecParameters :=
  { p_name : string; p_sql : string; p_macros : option string }.

(** A parsed macro definition and a parsed graph node; both carry the
    fully-qualified [unique_id] that keys them in the graph. *)
Module ParsedMacro.
Record t := { unique_id : string; macro_sql : string }.
End ParsedMacro.

Module ParsedNode.
Record t := { unique_id : string; name : string; raw_sql : string }.
End ParsedNode.

#[global] Instance ParsedMacro_eq_dec : EqDecision ParsedMacro.t.
Proof. solve_decision. Defined.
#[global] Instance ParsedNode_eq_dec : EqDecision ParsedNode.t.
Proof. solve_decision. Defined.

(** ** The metadata graph and object identity

    A manifest's [macros] attribute is a [dict] object.  Python passes it
    by reference, so the model keeps the dicts in a heap and lets a
    manifest hold the address of its macro collection: two manifests
    share the collection exactly when they hold the same address. *)

Abbreviation loc := nat.
Abbreviation MacroDict := (gmap string ParsedMacro.t).
Abbreviation Heap := (gmap nat (gmap string ParsedMacro.t)).

Module Manifest.
Record t := { nodes : gmap string ParsedNode.t; macros : loc }.
End Manifest.

(** What a reader of a manifest sees: its nodes and the current content of
    its macro collection. *)
Record ManifestData :=
  { md_nodes : gmap string ParsedNode.t; md_macros : MacroDict }.

Definition deref (h : Heap) (m : Manifest.t) : ManifestData :=
  {| md_nodes := Manifest.nodes m;
     md_macros := default ∅ (h !! Manifest.macros m) |}.

(** [d.update(other)] on the dict stored at [l]: keys of [other] win. *)
Definition dict_update (l : loc) (other : MacroDict) (h : Heap) : Heap :=
  <[l := other ∪ default ∅ (h !! l)]> h.

(** The adapter interface: [is_cancelable()], the names that
    [cancel_open_connections()] returns, and [type()]. *)
Record Adapter :=
  { is_cancelable : bool;
    open_connection_names : list string;
    adapter_type : string }.

(** ** Collaborators outside [remote.py] *)

Class Collaborators := {
  Config : Type;
  Linker : Type;
  Runner : Type;
  RunResult : Type;
  Response : Type;
  ParseResult : Type;
  (** [RPCTask.decode_sql] *)
  decode_sql : string → Exc + string;
  (** [dbt.clients.jinja.extract_toplevel_blocks] *)
  extract_toplevel_blocks : string → Exc + list Block;
  (** [ParseResult.rpc()] *)
  ParseResult_rpc : ParseResult;
  (** [RPCMacroParser(results, config).parse_remote(macros)]; the parser
      records what it parsed in [results] *)
  RPCMacroParser_parse_remote :
    ParseResult → Config → string → Exc + (list ParsedMacro.t * ParseResult);
  (** [RPCCallParser(results, project, root_project, macro_manifest)
      .parse_remote(sql, name)] *)
  RPCCallParser_parse_remote :
    ParseResult → Config → Config → ManifestData → string → string →
    Exc + ParsedNode.t;
  (** reference resolution inside [ParserUtils.add_new_refs]: [Some e] is
      the resolution error for an unknown upstream reference *)
  resolve_refs : Config → ManifestData → ParsedNode.t → option Exc;
  (** [compile_manifest(config, manifest, write=False)] *)
  compile_manifest : Config → ManifestData → Exc + Linker;
  (** [get_adapter(config)]; the adapter's three methods return as
      their interface says *)
  get_adapter : Config → Adapter;
  (** [self.get_runner(node)]: the runner object of the task's runner
      type for the node, or the exception that constructing it raises *)
  get_runner : Config → ParsedNode.t → Exc + Runner;
  (** [runner.safe_run(manifest)]; the flag tells whether the open backend
      connections were cancelled under the runner *)
  safe_run : Runner → ManifestData → bool → Exc + RunResult;
  (** [self.get_result(results, elapsed_time, generated_at)] *)
  get_result : list RunResult → Z → Z → Response;
}.

(** ** [_RPCExecTask] *)

(** Where the single [KeyboardInterrupt] of a request, if any, reaches the
    coordinating thread inside the [try] block of [handle_request]. *)
Inductive Interrupt : Type :=
| NoInterrupt
| BeforeParsing    (* on entry to [_get_exec_node]; [thread] is [None] *)
| AfterParsing     (* [_get_exec_node] returned; [thread] is [None] *)
| BeforeStart      (* [thread] is bound, [thread.start()] not yet called *)
| WorkerRunning    (* in [thread_done.wait()], the worker is running *)
| WorkerFinished.  (* in [thread_done.wait()], the worker has ended *)

#[global] Instance Interrupt_eq_dec : EqDecision Interrupt.
Proof. solve_decision. Defined.

(** The environment of one request: the interrupt and the two readings of
    [datetime.utcnow()] (in microseconds). *)
Record Env :=
  { interrupt : Interrupt; utcnow_started : Z; utcnow_ended : Z }.

Inductive ThreadPhase : Type :=
| Unstarted   (* [Thread(...)] constructed *)
| Alive       (* [start()] called, target still running *)
| Done.       (* target returned or died *)

(** What the trace records of a request. *)
Inductive Event : Type :=
| EvThreadStart                       (* [thread.start()] *)
| EvSafeRun                           (* worker: [runner.safe_run] called *)
| EvDoneSet                           (* worker: [thread_done.set()] *)
| EvWorkerDied (e : BaseExc)          (* an exception left the target *)
| EvWaitReturned                      (* [thread_done.wait()] returned *)
| EvCancelOpenConnections             (* [adapter.cancel_open_connections()] *)
| EvJoin                              (* [thread.join()] returned *)
| EvLogDebug (msg : string)           (* [logger.debug(msg)] *)
| EvGetResult.                        (* [self.get_result(...)] *)

#[global] Instance Event_eq_dec : EqDecision Event.
Proof. solve_decision. Defined.

Section RPCExecTask.
Context `{Collaborators}.

(** [self.args] of an ad-hoc task. *)
Record ExecArgs :=
  { a_name : string; a_sql : string; a_macros : option string }.

(** The attributes of the task that [remote.py] reads or writes. *)
Record Task := {
  args : ExecArgs;
  config : Config;
  _base_manifest : Manifest.t;
  manifest : Manifest.t;
  linker : option Linker;
  run_count : nat;
  num_nodes : nat;
  node_results : list RunResult;
  _skipped_children : gmap string (option string);
  _raise_next_tick : option Exc;
}.

(** The [threading.Thread] bound to the local [thread]: the node it was
    given as argument, how far it is, and whether [join()] returned. *)
Record Thread :=
  { thread_node : ParsedNode.t; phase : ThreadPhase; joined : bool }.

(** Everything a request can touch: the heap of macro collections (shared
    with all other requests), the task, the locals [thread] and
    [thread_done] of [handle_request], the adapter's connections, and
    the trace. *)
Record World := {
  heap : Heap;
  self : Task;
  thread : option Thread;
  thread_done : bool;
  connections_cancelled : bool;
  trace : list Event;
}.

Definition with_heap (f : Heap → Heap) (w : World) : World :=
  {| heap := f (heap w); self := self w; thread := thread w;
     thread_done := thread_done w;
     connections_cancelled := connections_cancelled w; trace := trace w |}.

Definition with_self (f : Task → Task) (w : World) : World :=
  {| heap := heap w; self := f (self w); thread := thread w;
     thread_done := thread_done w;
     connections_cancelled := connections_cancelled w; trace := trace w |}.

Definition with_thread (t : option Thread) (w : World) : World :=
  {| heap := heap w; self := self w; thread := t;
     thread_done := thread_done w;
     connections_cancelled := connections_cancelled w; trace := trace w |}.

Definition with_thread_done (b : bool) (w : World) : World :=
  {| heap := heap w; self := self w; thread := thread w;
     thread_done := b;
     connections_cancelled := connections_cancelled w; trace := trace w |}.

Definition with_connections_cancelled (b : bool) (w : World) : World :=
  {| heap := heap w; self := self w; thread := thread w;
     thread_done := thread_done w;
     connections_cancelled := b; trace := trace w |}.

Definition with_trace (f : list Event → list Event) (w : World) : World :=
  {| heap := heap w; self := self w; thread := thread w;
     thread_done := thread_done w;
     connections_cancelled := connections_cancelled w;
     trace := f (trace w) |}.

Definition emit (e : Event) : M World unit :=
  modify (with_trace (λ t, t ++ [e])).

Definition set_manifest (m : Manifest.t) (t : Task) : Task :=
  {| args := args t; config := config t;
     _base_manifest := _base_manifest t; manifest := m;
     linker := linker t; run_count := run_count t;
     num_nodes := num_nodes t; node_results := node_results t;
     _skipped_children := _skipped_children t;
     _raise_next_tick := _raise_next_tick t |}.

Definition set_linker (l : Linker) (t : Task) : Task :=
  {| args := args t; config := config t;
     _base_manifest := _base_manifest t; manifest := manifest t;
     linker := Some l; run_count := run_count t;
     num_nodes := num_nodes t; node_results := node_results t;
     _skipped_children := _skipped_children t;
     _raise_next_tick := _raise_next_tick t |}.

Definition append_node_result (r : RunResult) (t : Task) : Task :=
  {| args := args t; config := config t;
     _base_manifest := _base_manifest t; manifest := manifest t;
     linker := linker t; run_count := run_count t;
     num_nodes := num_nodes t; node_results := node_results t ++ [r];
     _skipped_children := _skipped_children t;
     _raise_next_tick := _raise_next_tick t |}.

Definition set_raise_next_tick (e : Exc) (t : Task) : Task :=
  {| args := args t; config := config t;
     _base_manifest := _base_manifest t; manifest := manifest t;
     linker := linker t; run_count := run_count t;
     num_nodes := num_nodes t; node_results := node_results t;
     _skipped_children := _skipped_children t;
     _raise_next_tick := Some e |}.

(** [runtime_cleanup]: the bookkeeping is reset for [selected_uids]. *)
Definition runtime_cleanup (selected_uids : list string) (t : Task) : Task :=
  {| args := args t; config := config t;
     _base_manifest := _base_manifest t; manifest := manifest t;
     linker := linker t;
     run_count := 0;
     num_nodes := length selected_uids;
     node_results := [];
     _skipped_children := ∅;
     _raise_next_tick := None |}.

(** [set_args]: the three parameters are stored on [self.args]. *)
Definition set_args (params : RPCExecParameters) (t : Task) : Task :=
  {| args := {| a_name := p_name params; a_sql := p_sql params;
                a_macros := p_macros params |};
     config := config t;
     _base_manifest := _base_manifest t; manifest := manifest t;
     linker := linker t; run_count := run_count t;
     num_nodes := num_nodes t; node_results := node_results t;
     _skipped_children := _skipped_children t;
     _raise_next_tick := _raise_next_tick t |}.

(** *** The fragment splitter *)

(** One turn of the loop over the blocks: a [macro] block is appended to
    [macro_blocks], any other block to [data_chunks]. *)
Definition split_block (acc : list string * list string) (block : Block)
  : list string * list string :=
  let '(macro_blocks, data_chunks) := acc in
  if String.eqb (block_type_name block) "macro"
  then (macro_blocks ++ [full_block block], data_chunks)
  else (macro_blocks, data_chunks ++ [full_block block]).

Definition _extract_request_data (data : string) : Exc + (string * string) :=
  bindE (decode_sql data) (λ data,
  bindE (extract_toplevel_blocks data) (λ blocks,
    let '(macro_blocks, data_chunks) :=
      fold_left split_block blocks ([], []) in
    let macros := Py.join Py.newline macro_blocks in
    let sql := Py.join "" data_chunks in
    inr (sql, macros))).

(** *** The ephemeral context builder *)

(** [for node in ...: macro_overrides[node.unique_id] = node]. *)
Definition collect_overrides (parsed : list ParsedMacro.t)
    (macro_overrides : MacroDict) : MacroDict :=
  fold_left (λ acc node, <[ParsedMacro.unique_id node := node]> acc)
            parsed macro_overrides.

(** Modelled from the spec: [ParserUtils.add_new_refs] is not part of
    [remote.py].  It merges the ad-hoc node into a request-scoped copy of
    the graph it is given: the copy has a macro collection of its own (a
    fresh dict holding the graph's macros and the request's overrides,
    overrides winning) and the graph's nodes plus the new node; resolving
    the node's upstream references against the copy may fail with a
    resolution error. *)
Definition add_new_refs (manifest : Manifest.t) (current_project : Config)
    (node : ParsedNode.t) (macros : MacroDict)
  : M World Manifest.t :=
  (w <- get ;;
   let l := fresh (dom (heap w)) in
   let copy :=
     {| Manifest.nodes :=
          <[ParsedNode.unique_id node := node]> (Manifest.nodes manifest);
        Manifest.macros := l |} in
   modify (with_heap
             (λ h, <[l := macros ∪ default ∅ (h !! Manifest.macros manifest)]> h)) ;;
   w <- get ;;
   match resolve_refs current_project (deref (heap w) copy) node with
   | Some e => raise (Exception e)
   | None => ret copy
   end)%M.

Definition _get_exec_node : M World ParsedNode.t :=
  (w <- get ;;
   let results := ParseResult_rpc in
   let macro_overrides : MacroDict := ∅ in
   let macros := a_macros (args (self w)) in
   '(sql, macros) <- lift (_extract_request_data (a_sql (args (self w)))) ;;
   '(macro_overrides, results) <-
      (if Py.truthy macros then
         '(parsed, results) <-
            lift (RPCMacroParser_parse_remote results (config (self w)) macros) ;;
         ret (collect_overrides parsed macro_overrides, results)
       else ret (macro_overrides, results)) ;;
   modify (with_heap
             (dict_update (Manifest.macros (_base_manifest (self w)))
                          macro_overrides)) ;;
   w <- get ;;
   node <- lift (RPCCallParser_parse_remote
                   results (config (self w)) (config (self w))
                   (deref (heap w) (_base_manifest (self w)))
                   sql (a_name (args (self w)))) ;;
   m <- add_new_refs (_base_manifest (self w)) (config (self w))
                     node macro_overrides ;;
   modify (with_self (set_manifest m)) ;;
   w <- get ;;
   lk <- lift (compile_manifest (config (self w))
                                (deref (heap w) (manifest (self w)))) ;;
   modify (with_self (set_linker lk)) ;;
   ret node)%M.

(** *** The worker and the coordinating thread *)

Variable env : Env.

(** A point of the [try] block where the interrupt may arrive. *)
Definition checkpoint (p : Interrupt) : M World unit :=
  if decide (interrupt env = p) then raise KeyboardInterrupt else ret tt.

Definition _raise_set_error : M World unit :=
  (w <- get ;;
   match _raise_next_tick (self w) with
   | Some exc => raise (Exception exc)
   | None => ret tt
   end)%M.

Definition _in_thread (node : ParsedNode.t) : M World unit :=
  (w <- get ;;
   runner <- lift (get_runner (config (self w)) node) ;;
   try_finally
     (try_except_Exception
        (emit EvSafeRun ;;
         w <- get ;;
         r <- lift (safe_run runner (deref (heap w) (manifest (self w)))
                             (connections_cancelled w)) ;;
         modify (with_self (append_node_result r)))
        (λ exc,
           emit (EvLogDebug ("Got exception " +:+ exc_str exc)) ;;
           modify (with_self (set_raise_next_tick exc))))
     (modify (with_thread_done true) ;; emit EvDoneSet))%M.

Definition set_phase (p : ThreadPhase) (t : Thread) : Thread :=
  {| thread_node := thread_node t; phase := p; joined := joined t |}.

Definition set_joined (t : Thread) : Thread :=
  {| thread_node := thread_node t; phase := phase t; joined := true |}.

(** [thread.start()]. *)
Definition thread_start : M World unit :=
  (w <- get ;;
   modify (with_thread (set_phase Alive <$> thread w)) ;;
   emit EvThreadStart)%M.

(** The target of a live thread runs to its end.  An exception that
    leaves the target ends the thread and nothing else; it does not
    reach the coordinating thread. *)
Definition run_thread : M World unit :=
  λ w, match thread w with
       | Some t =>
           match phase t with
           | Alive =>
               match _in_thread (thread_node t) w with
               | (w', Ret _) =>
                   (with_thread (Some (set_phase Done t)) w', Ret tt)
               | (w', Raise e) =>
                   (with_trace (λ tr, tr ++ [EvWorkerDied e])
                      (with_thread (Some (set_phase Done t)) w'), Ret tt)
               | (w', Blocked) => (w', Blocked)
               end
           | _ => (w, Ret tt)
           end
       | None => (w, Ret tt)
       end.

(** [thread_done.wait()]: the interrupt, if it arrives while the worker
    runs or after the worker has ended, is raised here; otherwise the
    call returns once the worker has set the event, and never returns
    when the worker has ended without setting it. *)
Definition thread_done_wait : M World unit :=
  (if decide (interrupt env = WorkerRunning) then raise KeyboardInterrupt
   else
     run_thread ;;
     w <- get ;;
     if decide (interrupt env = WorkerFinished) then raise KeyboardInterrupt
     else if thread_done w then emit EvWaitReturned
     else blocked)%M.

(** [thread.join()]: blocks until the target has ended; joining a thread
    that was never started is a [RuntimeError]. *)
Definition thread_join : M World unit :=
  (w <- get ;;
   match thread w with
   | Some t =>
       match phase t with
       | Unstarted =>
           raise (Exception
                    (PyException "RuntimeError"
                       "cannot join thread before it is started"))
       | _ =>
           run_thread ;;
           w <- get ;;
           modify (with_thread (set_joined <$> thread w)) ;;
           emit EvJoin
       end
   | None => ret tt
   end)%M.

(** The body of [except KeyboardInterrupt:]. *)
Definition on_KeyboardInterrupt : M World unit :=
  (w <- get ;;
   let adapter := get_adapter (config (self w)) in
   (if is_cancelable adapter then
      emit EvCancelOpenConnections ;;
      modify (with_connections_cancelled true) ;;
      for_each (open_connection_names adapter)
        (λ conn_name, emit (EvLogDebug ("canceled query " +:+ conn_name))) ;;
      w <- get ;;
      if thread w is Some _ then thread_join else ret tt
    else
      let msg := "The " +:+ adapter_type adapter
                 +:+ " adapter does not support query "
                 +:+ "cancellation. Some queries may still be "
                 +:+ "running!" in
      emit (EvLogDebug msg)) ;;
   raise (Exception (RPCKilledException SIGINT)))%M.

(** The body of [try:]. *)
Definition handle_request_try : M World unit :=
  (checkpoint BeforeParsing ;;
   node <- _get_exec_node ;;
   checkpoint AfterParsing ;;
   let selected_uids := [ParsedNode.unique_id node] in
   modify (with_self (runtime_cleanup selected_uids)) ;;
   modify (with_thread_done false) ;;
   modify (with_thread
             (Some {| thread_node := node; phase := Unstarted;
                      joined := false |})) ;;
   checkpoint BeforeStart ;;
   thread_start ;;
   thread_done_wait)%M.

Definition handle_request : M World Response :=
  (modify (with_thread None) ;;
   let started := utcnow_started env in
   try_except_KeyboardInterrupt handle_request_try on_KeyboardInterrupt ;;
   _raise_set_error ;;
   let ended := utcnow_ended env in
   let elapsed := (ended - started)%Z in
   w <- get ;;
   emit EvGetResult ;;
   ret (get_result (node_results (self w)) elapsed ended))%M.

End RPCExecTask.

(** ** The method registry and [RemoteRPCParameters] *)

(** A handler type as the registry sees it: its class name and its
    [METHOD_NAME] attribute ([None] on a class that declares none). *)
Record HandlerClass := { cls_name : string; METHOD_NAME : option string }.

#[global] Instance HandlerClass_eq_dec : EqDecision HandlerClass.
Proof. solve_decision. Defined.

(** The handler types that [remote.py] defines with a [METHOD_NAME], in
    the order of their definition. *)
Definition RemoteCompileTask : HandlerClass :=
  {| cls_name := "RemoteCompileTask"; METHOD_NAME := Some "compile_sql" |}.
Definition RemoteRunTask : HandlerClass :=
  {| cls_name := "RemoteRunTask"; METHOD_NAME := Some "run_sql" |}.
Definition RemoteCompileProjectTask : HandlerClass :=
  {| cls_name := "RemoteCompileProjectTask"; METHOD_NAME := Some "compile" |}.
Definition RemoteRunProjectTask : HandlerClass :=
  {| cls_name := "RemoteRunProjectTask"; METHOD_NAME := Some "run" |}.
Definition RemoteSeedProjectTask : HandlerClass :=
  {| cls_name := "RemoteSeedProjectTask"; METHOD_NAME := Some "seed" |}.
Definition RemoteTestProjectTask : HandlerClass :=
  {| cls_name := "RemoteTestProjectTask"; METHOD_NAME := Some "test" |}.
Definition RemoteDocsGenerateProjectTask : HandlerClass :=
  {| cls_name := "RemoteDocsGenerateProjectTask";
     METHOD_NAME := Some "docs.generate" |}.
Definition RemoteRPCParameters : HandlerClass :=
  {| cls_name := "RemoteRPCParameters"; METHOD_NAME := Some "cli_args" |}.

Definition named_handlers : list HandlerClass :=
  [ RemoteCompileTask; RemoteRunTask; RemoteCompileProjectTask;
    RemoteRunProjectTask; RemoteSeedProjectTask; RemoteTestProjectTask;
    RemoteDocsGenerateProjectTask; RemoteRPCParameters ].

(** [RPCCliParameters]. *)
Record RPCCliParameters := { cli : string }.

(** The [argparse.Namespace] that [parse_args] returns, as far as the
    handlers read it. *)
Record Namespace := {
  rpc_method : option string;
  which : option string;
  models : option (list string);
  exclude : option (list string);
}.

(** A task instance: its class and the three constructor arguments. *)
Record TaskInstance {Config ManifestT : Type} := {
  task_cls : HandlerClass;
  task_args : Namespace;
  task_config : Config;
  task_manifest : ManifestT;
}.
Arguments TaskInstance : clear implicits.

Module RemoteRPCParameters.
Section Methods.
Context {Config ManifestT Result : Type}.

(** [shlex.split]: a [ValueError] on an unbalanced quote. *)
Variable shlex_split : string → Exc + list string.
(** [dbt.main.parse_args(args, RPCArgumentParser)]: the argument grammar
    of the command-line entry point. *)
Variable parse_args : list string → Exc + Namespace.
(** [RPCTask.recursive_subclasses()], as enumerated at the call. *)
Variable recursive_subclasses : list HandlerClass.

(** [task.handle_request()] of an instance of any handler type. *)
Variable task_handle_request :
  TaskInstance Config ManifestT → Exc + Result.

(** [RemoteRPCParameters.set_args]: [self.args] is replaced by the parse
    of the lexed command line. *)
Definition set_args (params : RPCCliParameters)
    (self : TaskInstance Config ManifestT)
  : Exc + TaskInstance Config ManifestT :=
  bindE (shlex_split (cli params)) (λ split,
  bindE (parse_args split) (λ parsed,
    inr {| task_cls := task_cls self; task_args := parsed;
           task_config := task_config self;
           task_manifest := task_manifest self |})).

(** The [for candidate in ...] loop of [get_rpc_task_cls]. *)
Fixpoint first_match (candidates : list HandlerClass)
    (method : option string) : option HandlerClass :=
  match candidates with
  | [] => None
  | candidate :: rest =>
      if Py.eqb (METHOD_NAME candidate) method then Some candidate
      else first_match rest method
  end.

Definition get_rpc_task_cls (self : TaskInstance Config ManifestT)
  : Exc + HandlerClass :=
  match first_match recursive_subclasses (rpc_method (task_args self)) with
  | Some candidate => inr candidate
  | None =>
      inl (InternalException
             ("No matching handler found for rpc method "
              +:+ Py.str (rpc_method (task_args self))
              +:+ " (which=" +:+ Py.str (which (task_args self)) +:+ ")"))
  end.

Definition handle_request (self : TaskInstance Config ManifestT)
  : Exc + Result :=
  bindE (get_rpc_task_cls self) (λ cls,
    let task := {| task_cls := cls; task_args := task_args self;
                   task_config := task_config self;
                   task_manifest := task_manifest self |} in
    task_handle_request task).

(** A [cli_args] request: [set_args(params)], then [handle_request()]. *)
Definition request (params : RPCCliParameters)
    (self : TaskInstance Config ManifestT)
  : Exc + Result :=
  bindE (set_args params self) handle_request.

End Methods.
End RemoteRPCParameters.

(** ** Vocabulary of the properties *)

(** The spec's reading of the splitter: the full text of the macro blocks,
    in source order, and the full text of every other block, in source
    order. *)
Definition is_macro_block (b : Block) : bool :=
  String.eqb (block_type_name b) "macro".

Definition macro_texts (blocks : list Block) : list string :=
  map full_block (List.filter is_macro_block blocks).

Definition statement_texts (blocks : list Block) : list string :=
  map full_block (List.filter (λ b, negb (is_macro_block b)) blocks).

Section Vocabulary.
Context `{Collaborators}.

(** What [_get_exec_node] leaves alone: the thread, the event, the
    connections, the trace, and every attribute of the task other than
    [manifest] and [linker].  It ends with a return or an [Exception]. *)
Definition same_outside_graph (w w' : World) : Prop :=
  thread w' = thread w
  ∧ thread_done w' = thread_done w
  ∧ connections_cancelled w' = connections_cancelled w
  ∧ trace w' = trace w
  ∧ args (self w') = args (self w)
  ∧ config (self w') = config (self w)
  ∧ _base_manifest (self w') = _base_manifest (self w)
  ∧ node_results (self w') = node_results (self w)
  ∧ _raise_next_tick (self w') = _raise_next_tick (self w).

(** The first stage of [_get_exec_node]: the statement text of the request,
    the macro definitions it brings (the macro blocks of its [sql] text,
    parsed, keyed by [unique_id], the last definition of a key winning),
    and the parse results so far. *)
Definition parse_request_macros (t : Task)
  : Exc + (string * MacroDict * ParseResult) :=
  bindE (_extract_request_data (a_sql (args t))) (λ '(sql, macros),
    if Py.truthy macros then
      bindE (RPCMacroParser_parse_remote ParseResult_rpc (config t) macros)
            (λ '(parsed, results),
               inr (sql, collect_overrides parsed ∅, results))
    else inr (sql, ∅, ParseResult_rpc)).

(** The macro definitions a request brings. *)
Definition request_overrides (t : Task) : Exc + MacroDict :=
  bindE (parse_request_macros t) (λ '(_, overrides, _), inr overrides).

(** The state in which the coordinating thread starts to wait: the
    context is built, the bookkeeping reset, the worker started. *)
Definition waiting (node : ParsedNode.t) (w1 : World) : World :=
  with_trace (λ t, t ++ [EvThreadStart])
    (with_thread
       (Some {| thread_node := node; phase := Alive; joined := false |})
       (with_thread_done false
          (with_self (runtime_cleanup [ParsedNode.unique_id node]) w1))).

(** The state in which the worker resumes once the coordinating thread,
    interrupted while waiting, has cancelled the open connections. *)
Definition cancelled (node : ParsedNode.t) (names : list string)
    (w1 : World) : World :=
  with_trace
    (λ t, t ++ map (λ n, EvLogDebug ("canceled query " +:+ n)) names)
    (with_connections_cancelled true
       (with_trace (λ t, t ++ [EvCancelOpenConnections])
          (waiting node (with_thread None w1)))).

(** [self.args.macros = m], everything else as it is. *)
Definition set_args_macros (m : option string) (t : Task) : Task :=
  {| args := {| a_name := a_name (args t); a_sql := a_sql (args t);
                a_macros := m |};
     config := config t;
     _base_manifest := _base_manifest t; manifest := manifest t;
     linker := linker t; run_count := run_count t;
     num_nodes := num_nodes t; node_results := node_results t;
     _skipped_children := _skipped_children t;
     _raise_next_tick := _raise_next_tick t |}.

(** A computation ignores [args.macros]: run on a world with another
    value of it, it does the same and leaves the other value in place. *)
Definition ignores_macros {A} (c : M World A) : Prop :=
  ∀ (m : option string) (w : World),
    c (with_self (set_args_macros m) w)
    = (with_self (set_args_macros m) (c w).1, (c w).2).

(** The number of [thread.start()] calls in a stretch of trace. *)
Definition spawns (tr : list Event) : nat :=
  length (List.filter (λ e, bool_decide (e = EvThreadStart)) tr).

(** A computation only appends to the trace, and starts at most [n]
    threads. *)
Definition spawns_at_most {A} (n : nat) (c : M World A) : Prop :=
  ∀ w, ∃ new, trace (c w).1 = trace w ++ new ∧ (spawns new ≤ n)%nat.

(** The state in which an interrupt finds the request between
    [Thread(...)] and [thread.start()]: the bookkeeping is reset and
    [thread] is bound to a thread that has not been started. *)
Definition unstarted (node : ParsedNode.t) (w1 : World) : World :=
  with_thread
    (Some {| thread_node := node; phase := Unstarted; joined := false |})
    (with_thread_done false
       (with_self (runtime_cleanup [ParsedNode.unique_id node]) w1)).

(** The state after [cancel_open_connections()] and its debug lines. *)
Definition after_cancel (names : list string) (w : World) : World :=
  with_trace
    (λ t, t ++ map (λ n, EvLogDebug ("canceled query " +:+ n)) names)
    (with_connections_cancelled true
       (with_trace (λ t, t ++ [EvCancelOpenConnections]) w)).

(** The debug line for an adapter that cannot cancel. *)
Definition unsupported_message (adapter : Adapter) : string :=
  "The " +:+ adapter_type adapter
  +:+ " adapter does not support query "
  +:+ "cancellation. Some queries may still be " +:+ "running!".

(** The state a worker leaves when the exception [e] ends it before its
    [try] block: the thread is over and the event is not set. *)
Definition died (node : ParsedNode.t) (e : Exc) (w : World) : World :=
  with_trace (λ t, t ++ [EvWorkerDied (Exception e)])
    (with_thread
       (Some {| thread_node := node; phase := Done; joined := false |}) w).

(** The two exceptions that the interrupt handler can end with. *)
Definition killed : Exc := RPCKilledException SIGINT.

Definition join_unstarted : Exc :=
  PyException "RuntimeError" "cannot join thread before it is started".

End Vocabulary.

(** ** A small concrete set of collaborators

    A toy template lexer, toy parsers and a toy runner, on which the
    definitions above can be run. *)

Module Demo.

Definition macro_open : string := "{% macro ".
Definition macro_close : string := "{% endmacro %}".

Definition drop_prefix (n : nat) (s : string) : string :=
  String.substring n (String.length s - n) s.

Definition data_block (s : string) : Block :=
  {| block_type_name := "__dbt__data"; full_block := s |}.

(** Top-level blocks: [{% macro ... %}...{% endmacro %}] spans are
    [macro] blocks, the text between them is raw data. *)
Fixpoint lex (fuel : nat) (s : string) : Exc + list Block :=
  match fuel with
  | O => inr []
  | S fuel =>
      if bool_decide (s = "") then inr []
      else if String.prefix macro_open s then
        match String.index 0 macro_close s with
        | Some i =>
            let n := i + String.length macro_close in
            bindE (lex fuel (drop_prefix n s)) (λ rest,
              inr ({| block_type_name := "macro";
                      full_block := String.substring 0 n s |} :: rest))
        | None =>
            inl (CompilationException
                   "Reached EOF without finding a close tag for macro")
        end
      else
        match String.index 0 macro_open s with
        | Some (S i) =>
            bindE (lex fuel (drop_prefix (S i) s)) (λ rest,
              inr (data_block (String.substring 0 (S i) s) :: rest))
        | _ => inr [data_block s]
        end
  end.

Definition extract_toplevel_blocks (data : string) : Exc + list Block :=
  lex (S (String.length data)) data.

Record Config := { project_name : string; adapter : Adapter }.

(** One macro per [macro] block; its name is what stands before the
    parenthesis. *)
Definition parse_macro (config : Config) (b : Block)
  : Exc + list ParsedMacro.t :=
  if String.eqb (block_type_name b) "macro" then
    let body := drop_prefix (String.length macro_open) (full_block b) in
    match String.index 0 "(" body with
    | Some i =>
        inr [ {| ParsedMacro.unique_id :=
                   "macro." +:+ project_name config +:+ "."
                   +:+ String.substring 0 i body;
                 ParsedMacro.macro_sql := full_block b |} ]
    | None => inl (CompilationException "macro without a parameter list")
    end
  else inr [].

Fixpoint parse_macros (config : Config) (bs : list Block)
  : Exc + list ParsedMacro.t :=
  match bs with
  | [] => inr []
  | b :: rest =>
      bindE (parse_macro config b) (λ ms,
      bindE (parse_macros config rest) (λ ms', inr (ms ++ ms')))
  end.

Definition RPCMacroParser_parse_remote (results : list string)
    (config : Config) (macros : string)
  : Exc + (list ParsedMacro.t * list string) :=
  bindE (extract_toplevel_blocks macros) (λ bs,
  bindE (parse_macros config bs) (λ ms,
    inr (ms, results ++ map ParsedMacro.unique_id ms))).

Definition contains (needle s : string) : bool :=
  bool_decide (is_Some (String.index 0 needle s)).

(** The statement must close every expression it opens. *)
Definition RPCCallParser_parse_remote (results : list string)
    (project root_project : Config) (macro_manifest : ManifestData)
    (sql name : string) : Exc + ParsedNode.t :=
  if contains "{{" sql && negb (contains "}}" sql)
  then inl (CompilationException "unexpected end of template")
  else inr {| ParsedNode.unique_id :=
                "rpc." +:+ project_name project +:+ "." +:+ name;
              ParsedNode.name := name;
              ParsedNode.raw_sql := sql |}.

(** A statement that mentions [ref('customers')] needs the model
    [customers] in the graph. *)
Definition resolve_refs (config : Config) (graph : ManifestData)
    (node : ParsedNode.t) : option Exc :=
  if contains "ref('customers')" (ParsedNode.raw_sql node) then
    match md_nodes graph
          !! ("model." +:+ project_name config +:+ ".customers") with
    | Some _ => None
    | None =>
        Some (CompilationException
                "depends on a node named 'customers' which was not found")
    end
  else None.

(** No runner can be built for a node whose statement is empty. *)
Definition get_runner (config : Config) (node : ParsedNode.t)
  : Exc + ParsedNode.t :=
  if bool_decide (ParsedNode.raw_sql node = "")
  then inl (RuntimeException "nothing to run")
  else inr node.

(** The runner fails on a statement that mentions [boom]. *)
Definition safe_run (runner : ParsedNode.t) (graph : ManifestData)
    (cancelled : bool) : Exc + string :=
  if contains "boom" (ParsedNode.raw_sql runner)
  then inl (PyException "ValueError" "boom")
  else if cancelled
       then inr ("cancelled " +:+ ParsedNode.unique_id runner)
       else inr ("ok " +:+ ParsedNode.unique_id runner).

(** [get_result]: the envelope as a triple. *)
Definition Response : Type := list string * Z * Z.

#[export] Instance collaborators : Collaborators :=
  Build_Collaborators
    Config (list string) ParsedNode.t string Response (list string)
    (λ data, inr data)
    extract_toplevel_blocks
    []
    RPCMacroParser_parse_remote
    RPCCallParser_parse_remote
    resolve_refs
    (λ config graph, inr (map fst (map_to_list (md_nodes graph))))
    adapter
    get_runner
    safe_run
    (λ results elapsed_time generated_at,
       (results, elapsed_time, generated_at)).

Definition postgres : Adapter :=
  {| is_cancelable := true;
     open_connection_names := ["master"; "rpc.q1"];
     adapter_type := "postgres" |}.

Definition bigquery : Adapter :=
  {| is_cancelable := false;
     open_connection_names := [];
     adapter_type := "bigquery" |}.

(** The baseline graph: one model, and an empty macro collection stored
    at address 0. *)
Definition baseline : Manifest.t :=
  {| Manifest.nodes :=
       {[ "model.shop.orders" :=
            {| ParsedNode.unique_id := "model.shop.orders";
               ParsedNode.name := "orders";
               ParsedNode.raw_sql := "select * from raw_orders" |} ]};
     Manifest.macros := 0 |}.

Definition task (a : Adapter) (params : RPCExecParameters) : Task :=
  set_args params
    {| args := {| a_name := ""; a_sql := ""; a_macros := None |};
       config := {| project_name := "shop"; adapter := a |};
       _base_manifest := baseline;
       manifest := baseline;
       linker := None;
       run_count := 0; num_nodes := 0; node_results := [];
       _skipped_children := ∅;
       _raise_next_tick := None |}.

Definition world (a : Adapter) (params : RPCExecParameters) : World :=
  {| heap := {[ 0 := ∅ ]};
     self := task a params;
     thread := None;
     thread_done := false;
     connections_cancelled := false;
     trace := [] |}.

Definition env (i : Interrupt) : Env :=
  {| interrupt := i; utcnow_started := 1000; utcnow_ended := 4500 |}.

(** The command line split at blanks: the lexer of a line without
    quotes or escapes. *)
Fixpoint split_blank (s word : string) : list string :=
  match s with
  | EmptyString => if bool_decide (word = "") then [] else [word]
  | String c rest =>
      if bool_decide (c = " "%char) then
        if bool_decide (word = "") then split_blank rest ""
        else word :: split_blank rest ""
      else split_blank rest (word +:+ String c "")
  end.

Definition shlex_split (s : string) : Exc + list string :=
  inr (split_blank s "").

(** The values of an option: the tokens up to the next option. *)
Fixpoint option_values (ts : list string) : list string * list string :=
  match ts with
  | [] => ([], [])
  | t :: rest =>
      if String.prefix "--" t then ([], ts)
      else let '(vs, rest') := option_values rest in (t :: vs, rest')
  end.

Fixpoint parse_options (fuel : nat) (ts : list string) (ns : Namespace)
  : Exc + Namespace :=
  match fuel, ts with
  | S fuel, t :: rest =>
      let '(vs, rest') := option_values rest in
      if String.eqb t "--models" then
        parse_options fuel rest'
          {| rpc_method := rpc_method ns; which := which ns;
             models := Some vs; exclude := exclude ns |}
      else if String.eqb t "--exclude" then
        parse_options fuel rest'
          {| rpc_method := rpc_method ns; which := which ns;
             models := models ns; exclude := Some vs |}
      else inl (RuntimeException ("unrecognized arguments: " +:+ t))
  | _, _ => inr ns
  end.

(** A grammar with the sub-commands [run], [compile] and [test], each
    with [--models] and [--exclude]. *)
Definition parse_args (ts : list string) : Exc + Namespace :=
  match ts with
  | sub :: rest =>
      if bool_decide (sub ∈ ["run"; "compile"; "test"]) then
        parse_options (length rest) rest
          {| rpc_method := Some sub; which := Some sub;
             models := None; exclude := None |}
      else inl (RuntimeException ("invalid choice: " +:+ sub))
  | [] => inl (RuntimeException "the following arguments are required")
  end.

(** The server's own arguments, before [set_args]. *)
Definition rpc_server_args : Namespace :=
  {| rpc_method := None; which := Some "rpc";
     models := None; exclude := None |}.

Definition cli_task : TaskInstance Config Manifest.t :=
  {| task_cls := RemoteRPCParameters; task_args := rpc_server_args;
     task_config := {| project_name := "shop"; adapter := postgres |};
     task_manifest := baseline |}.

(** A handler that reports which type served which models. *)
Definition task_handle_request (task : TaskInstance Config Manifest.t)
  : Exc + (string * option (list string)) :=
  inr (cls_name (task_cls task), models (task_args task)).

Definition select_1 : RPCExecParameters :=
  {| p_name := "q1"; p_sql := "select 1 as id"; p_macros := None |}.

Definition with_macro : RPCExecParameters :=
  {| p_name := "q2";
     p_sql := "{% macro one() %}1{% endmacro %}select {{ one() }} as id";
     p_macros := None |}.

Definition failing : RPCExecParameters :=
  {| p_name := "q3"; p_sql := "select boom"; p_macros := None |}.

Definition unresolved : RPCExecParameters :=
  {| p_name := "q4";
     p_sql := "select * from {{ ref('customers') }}";
     p_macros := None |}.

Definition broken_macro : RPCExecParameters :=
  {| p_name := "q5";
     p_sql := "{% macro broken %}1{% endmacro %}select 1";
     p_macros := None |}.

Definition macro_then_broken_statement : RPCExecParameters :=
  {| p_name := "q6";
     p_sql := "{% macro one() %}1{% endmacro %}select {{ one(";
     p_macros := None |}.

Definition empty : RPCExecParameters :=
  {| p_name := "q7"; p_sql := ""; p_macros := None |}.

Definition node (params : RPCExecParameters) (sql : string) : ParsedNode.t :=
  {| ParsedNode.unique_id := "rpc.shop." +:+ p_name params;
     ParsedNode.name := p_name params;
     ParsedNode.raw_sql := sql |}.

Definition macro_one : ParsedMacro.t :=
  {| ParsedMacro.unique_id := "macro.shop.one";
     ParsedMacro.macro_sql := "{% macro one() %}1{% endmacro %}" |}.

(** Two requests on the same baseline graph, one after the other: the
    first brings the macro [one], the second brings no macro and starts
    on the heap that the first has left. *)
Definition first_request : World := world postgres with_macro.

Definition after_first : World := (_get_exec_node first_request).1.

Definition second_request : World :=
  with_heap (λ _, heap after_first) (world postgres select_1).

Definition after_second : World := (_get_exec_node second_request).1.
End Demo.

(** * Properties *)

(** ** The monad's primitives, as equations *)

Section MonadFacts.
Context {S : Type}.

Lemma bind_ret_l {A B} (a : A) (k : A → M S B) (s : S) :
  bind (ret a) k s = k a s.
Proof. reflexivity. Qed.

Lemma bind_Ret {A B} (c : M S A) (k : A → M S B) (s s' : S) (a : A) :
  c s = (s', Ret a) → bind c k s = k a s'.
Proof. intros Hc. unfold bind. by rewrite Hc. Qed.

Lemma bind_Raise {A B} (c : M S A) (k : A → M S B) (s s' : S) e :
  c s = (s', Raise e) → bind c k s = (s', Raise e).
Proof. intros Hc. unfold bind. by rewrite Hc. Qed.

Lemma bind_Blocked {A B} (c : M S A) (k : A → M S B) (s s' : S) :
  c s = (s', Blocked) → bind c k s = (s', Blocked).
Proof. intros Hc. unfold bind. by rewrite Hc. Qed.
End MonadFacts.

(** ** The fragment splitter *)

Lemma fold_split_block (blocks : list Block) (ms ds : list string) :
  fold_left split_block blocks (ms, ds)
  = (ms ++ macro_texts blocks, ds ++ statement_texts blocks).
Proof.
  revert ms ds. induction blocks as [|b blocks IH]; intros ms ds.
  - unfold macro_texts, statement_texts. simpl. by rewrite !app_nil_r.
  - change (fold_left split_block (b :: blocks) (ms, ds))
      with (fold_left split_block blocks (split_block (ms, ds) b)).
    unfold macro_texts, statement_texts. simpl.
    unfold split_block. fold (is_macro_block b).
    destruct (is_macro_block b); simpl; rewrite IH;
      unfold macro_texts, statement_texts; rewrite <- !app_assoc;
      reflexivity.
Qed.

Lemma append_empty_r (x : string) : x +:+ "" = x.
Proof.
  induction x as [|a x IH]; [done|].
  change (String a (x +:+ "") = String a x). by rewrite IH.
Qed.

Lemma join_empty_sep (l : list string) :
  Py.join "" l = fold_right String.append "" l.
Proof.
  induction l as [|x l IH]; [done|].
  destruct l as [|y l].
  - change (x = x +:+ ""). by rewrite append_empty_r.
  - change (Py.join "" (x :: y :: l)) with (x +:+ "" +:+ Py.join "" (y :: l)).
    rewrite IH. reflexivity.
Qed.

Section Splitter.
Context `{Collaborators}.

(** C5.  Once the request text is decoded and lexed into top-level
    blocks, [_extract_request_data] returns as macros text the macro
    blocks joined with newlines in source order, and as statement text
    the concatenation, with no separator, of all other blocks in source
    order; with no macro block the macros text is empty. *)
Theorem extract_request_data_partition
    (data decoded : string) (blocks : list Block) :
  decode_sql data = inr decoded →
  extract_toplevel_blocks decoded = inr blocks →
  _extract_request_data data
  = inr (fold_right String.append "" (statement_texts blocks),
         Py.join Py.newline (macro_texts blocks))
  ∧ (macro_texts blocks = [] →
     _extract_request_data data
     = inr (fold_right String.append "" (map full_block blocks), "")).
Proof.
  intros Hdecode Hlex.
  assert (Hrun : _extract_request_data data
                 = inr (Py.join "" (statement_texts blocks),
                        Py.join Py.newline (macro_texts blocks))).
  { unfold _extract_request_data. rewrite Hdecode. simpl.
    rewrite Hlex. simpl. by rewrite fold_split_block. }
  rewrite join_empty_sep in Hrun. split; [exact Hrun|].
  intros Hnone. rewrite Hrun, Hnone. simpl. do 3 f_equal.
  unfold statement_texts. f_equal.
  revert Hnone. unfold macro_texts. clear.
  induction blocks as [|b bs IH]; [done|]. simpl.
  destruct (is_macro_block b); simpl; [done|].
  intros Hbs. f_equal. by apply IH.
Qed.
End Splitter.

(** ** The ephemeral context builder *)

Section ContextBuilder.
Context `{Collaborators}.

Lemma _get_exec_node_frame (w w' : World) (r : Outcome ParsedNode.t) :
  _get_exec_node w = (w', r) →
  same_outside_graph w w'
  ∧ r ≠ Raise KeyboardInterrupt ∧ r ≠ Blocked.
Proof.
  unfold _get_exec_node, add_new_refs, same_outside_graph,
    bind, lift, get, modify, raise, ret.
  intros Hrun.
  repeat case_match; simplify_eq; simpl; done.
Qed.

Lemma collect_overrides_last (parsed : list ParsedMacro.t)
    (m : ParsedMacro.t) (acc : MacroDict) :
  collect_overrides (parsed ++ [m]) acc !! ParsedMacro.unique_id m = Some m.
Proof.
  unfold collect_overrides. rewrite fold_left_app. simpl.
  apply lookup_insert_eq.
Qed.

(** The failures of the context builder.  A syntax error in a macro block
    is raised before anything is written; a syntax error in the statement
    and an unresolved reference are raised after the baseline macro
    collection was updated. *)
Lemma macro_syntax_error_raises
    (w : World) (sql macros : string) (exc : Exc) :
  _extract_request_data (a_sql (args (self w))) = inr (sql, macros) →
  Py.truthy macros = true →
  RPCMacroParser_parse_remote ParseResult_rpc (config (self w)) macros
  = inl exc →
  _get_exec_node w = (w, Raise (Exception exc)).
Proof.
  intros Hsplit Htruthy Hparse.
  unfold _get_exec_node, bind, lift, get, modify, raise, ret. simpl.
  rewrite Hsplit. simpl. rewrite Htruthy. by rewrite Hparse.
Qed.

Lemma statement_syntax_error_raises
    (w : World) (sql : string) (overrides : MacroDict)
    (results : ParseResult) (exc : Exc) :
  parse_request_macros (self w) = inr (sql, overrides, results) →
  RPCCallParser_parse_remote results (config (self w)) (config (self w))
    (deref (dict_update (Manifest.macros (_base_manifest (self w)))
                        overrides (heap w))
           (_base_manifest (self w)))
    sql (a_name (args (self w))) = inl exc →
  _get_exec_node w
  = (with_heap (dict_update (Manifest.macros (_base_manifest (self w)))
                            overrides) w,
     Raise (Exception exc)).
Proof.
  unfold parse_request_macros, bindE. intros Hstage Hparse.
  unfold _get_exec_node, bind, lift, get, modify, raise, ret. simpl.
  destruct (_extract_request_data (a_sql (args (self w))))
    as [e|[sql' macros]]; [done|]. simpl.
  destruct (Py.truthy macros).
  - destruct (RPCMacroParser_parse_remote _ _ _) as [e|[parsed results']];
      simplify_eq. simpl. by rewrite Hparse.
  - simplify_eq. simpl. by rewrite Hparse.
Qed.

Lemma unresolved_reference_raises
    (w : World) (sql : string) (overrides : MacroDict)
    (results : ParseResult) (node : ParsedNode.t) (exc : Exc) :
  let base := _base_manifest (self w) in
  let h1 := dict_update (Manifest.macros base) overrides (heap w) in
  let h2 := <[fresh (dom h1)
              := overrides ∪ default ∅ (h1 !! Manifest.macros base)]> h1 in
  parse_request_macros (self w) = inr (sql, overrides, results) →
  RPCCallParser_parse_remote results (config (self w)) (config (self w))
    (deref h1 base) sql (a_name (args (self w))) = inr node →
  resolve_refs (config (self w))
    (deref h2
       {| Manifest.nodes :=
            <[ParsedNode.unique_id node := node]> (Manifest.nodes base);
          Manifest.macros := fresh (dom h1) |})
    node = Some exc →
  _get_exec_node w = (with_heap (λ _, h2) w, Raise (Exception exc)).
Proof.
  intros base h1 h2 Hstage Hparse Href.
  unfold parse_request_macros, bindE in Hstage.
  unfold h2, h1, base in *. clear h2 h1 base.
  unfold _get_exec_node, add_new_refs, bind, lift, get, modify, raise, ret.
  simpl.
  destruct (_extract_request_data (a_sql (args (self w))))
    as [e|[sql' macros]]; [done|]. simpl.
  destruct (Py.truthy macros).
  - destruct (RPCMacroParser_parse_remote _ _ _) as [e|[parsed results']];
      simplify_eq. simpl. rewrite Hparse. simpl.
    match goal with
    | |- context [resolve_refs ?a ?b ?c] =>
        replace (resolve_refs a b c) with (Some exc)
          by (symmetry; exact Href)
    end.
    reflexivity.
  - simplify_eq. simpl. rewrite Hparse. simpl.
    match goal with
    | |- context [resolve_refs ?a ?b ?c] =>
        replace (resolve_refs a b c) with (Some exc)
          by (symmetry; exact Href)
    end.
    reflexivity.
Qed.


(** A successful [_get_exec_node], step by step: the request's macro
    definitions are written into the macro collection of the baseline
    graph, the statement is parsed against the baseline graph read after
    that update, and the merge step returns a graph with a macro
    collection of its own. *)
Lemma _get_exec_node_Ret (w w' : World) (node : ParsedNode.t) :
  _get_exec_node w = (w', Ret node) →
  let base := Manifest.macros (_base_manifest (self w)) in
  let before := default ∅ (heap w !! base) in
  ∃ (sql : string) (overrides : MacroDict) (results : ParseResult),
    parse_request_macros (self w) = inr (sql, overrides, results)
    ∧ RPCCallParser_parse_remote results (config (self w)) (config (self w))
        (deref (dict_update base overrides (heap w)) (_base_manifest (self w)))
        sql (a_name (args (self w))) = inr node
    ∧ _base_manifest (self w') = _base_manifest (self w)
    ∧ heap w' !! base = Some (overrides ∪ before)
    ∧ Manifest.macros (manifest (self w')) ≠ base
    ∧ heap w' !! Manifest.macros (manifest (self w'))
      = Some (overrides ∪ before).
Proof.
  intros Hrun base before.
  unfold _get_exec_node, add_new_refs, bind, lift, get, modify, raise, ret
    in Hrun.
  unfold parse_request_macros, bindE.
  simpl in Hrun.
  destruct (_extract_request_data (a_sql (args (self w))))
    as [e|[sql macros]]; [done|].
  simpl in Hrun.
  assert (Hfresh : ∀ ov : MacroDict,
             fresh (dom (dict_update base ov (heap w))) ≠ base).
  { intros ov Heq.
    pose proof (is_fresh (dom (dict_update base ov (heap w)))) as Hnew.
    apply Hnew. rewrite Heq at 1. unfold dict_update.
    rewrite dom_insert_L. set_solver. }
  assert (Hidem : ∀ ov : MacroDict,
             ov ∪ default ∅ (dict_update base ov (heap w) !! base)
             = ov ∪ before).
  { intros ov. unfold dict_update. rewrite lookup_insert_eq. simpl.
    fold before. rewrite (assoc_L (∪)). by rewrite (idemp_L (∪)). }
  destruct (Py.truthy macros).
  - destruct (RPCMacroParser_parse_remote ParseResult_rpc
                (config (self w)) macros) as [e|[parsed results]];
      simpl in Hrun; [done|].
    exists sql, (collect_overrides parsed ∅), results.
    specialize (Hfresh (collect_overrides parsed ∅)).
    specialize (Hidem (collect_overrides parsed ∅)).
    destruct (RPCCallParser_parse_remote _ _ _ _ _ _) as [e|node']
      eqn:Hparse; simpl in Hrun; [done|].
    destruct (resolve_refs _ _ _); simpl in Hrun; [done|].
    destruct (compile_manifest _ _); simpl in Hrun; [done|].
    simplify_eq. simpl. fold base.
    split; [done|]. split; [done|]. split; [done|].
    split; [|split; [done|]].
    + rewrite lookup_insert_ne by done. apply lookup_insert_eq.
    + rewrite lookup_insert_eq. by rewrite Hidem.
  - exists sql, ∅, ParseResult_rpc.
    specialize (Hfresh ∅). specialize (Hidem ∅).
    destruct (RPCCallParser_parse_remote _ _ _ _ _ _) as [e|node']
      eqn:Hparse; simpl in Hrun; [done|].
    destruct (resolve_refs _ _ _); simpl in Hrun; [done|].
    destruct (compile_manifest _ _); simpl in Hrun; [done|].
    simplify_eq. simpl. fold base.
    split; [done|]. split; [done|]. split; [done|].
    split; [|split; [done|]].
    + rewrite lookup_insert_ne by done. apply lookup_insert_eq.
    + rewrite lookup_insert_eq. by rewrite Hidem.
Qed.

(** What a reader of the baseline graph sees once its macro collection
    has been updated with [overrides]. *)
Lemma deref_dict_update (h : Heap) (m : Manifest.t) (overrides : MacroDict) :
  md_macros (deref (dict_update (Manifest.macros m) overrides h) m)
  = overrides ∪ default ∅ (h !! Manifest.macros m).
Proof.
  unfold deref, dict_update. simpl. by rewrite lookup_insert_eq.
Qed.

(** C1 (amended).  [_get_exec_node] writes the request's macro
    definitions into the macro collection of the baseline graph itself
    ([dict.update], the request's definitions winning), and parses the
    statement against that same baseline object, read after the update:
    the baseline collection afterwards holds the definitions on top of
    its previous content, and keeps its content when the request brings
    no definition.  The request-scoped graph that the merge step returns
    has a macro collection of its own, with the same content.  A later
    request whose task holds the same baseline object, and that runs on
    the heap this one has left, reads this request's definitions from
    the baseline, and its own statement is parsed against them (under
    its own definitions). *)
Theorem get_exec_node_updates_baseline_in_place
    (w w' : World) (node : ParsedNode.t) :
  _get_exec_node w = (w', Ret node) →
  let base := Manifest.macros (_base_manifest (self w)) in
  let before := default ∅ (heap w !! base) in
  ∃ (sql : string) (overrides : MacroDict) (results : ParseResult),
    parse_request_macros (self w) = inr (sql, overrides, results)
    ∧ request_overrides (self w) = inr overrides
    ∧ _base_manifest (self w') = _base_manifest (self w)
    ∧ heap w' !! base = Some (overrides ∪ before)
    ∧ md_macros (deref (dict_update base overrides (heap w))
                       (_base_manifest (self w)))
      = overrides ∪ before
    ∧ RPCCallParser_parse_remote results (config (self w)) (config (self w))
        (deref (dict_update base overrides (heap w)) (_base_manifest (self w)))
        sql (a_name (args (self w))) = inr node
    ∧ Manifest.macros (manifest (self w')) ≠ base
    ∧ heap w' !! Manifest.macros (manifest (self w'))
      = Some (overrides ∪ before)
    ∧ (overrides = ∅ → heap w !! base = Some before →
       heap w' !! base = heap w !! base)
    ∧ ∀ later : World,
        heap later = heap w' →
        _base_manifest (self later) = _base_manifest (self w) →
        md_macros (deref (heap later) (_base_manifest (self later)))
        = overrides ∪ before
        ∧ ∀ (later' : World) (node2 : ParsedNode.t),
            _get_exec_node later = (later', Ret node2) →
            ∃ (sql2 : string) (overrides2 : MacroDict)
              (results2 : ParseResult),
              parse_request_macros (self later)
              = inr (sql2, overrides2, results2)
              ∧ md_macros (deref (dict_update base overrides2 (heap later))
                                 (_base_manifest (self later)))
                = overrides2 ∪ (overrides ∪ before)
              ∧ RPCCallParser_parse_remote results2
                  (config (self later)) (config (self later))
                  (deref (dict_update base overrides2 (heap later))
                         (_base_manifest (self later)))
                  sql2 (a_name (args (self later))) = inr node2
              ∧ heap later' !! base
                = Some (overrides2 ∪ (overrides ∪ before)).
Proof.
  intros Hrun base before.
  destruct (_get_exec_node_Ret _ _ _ Hrun)
    as (sql & overrides & results & Hstage & Hparse & Hbm & Hbase & Hown
        & Hcopy).
  fold base in Hparse, Hbase, Hown, Hcopy. fold before in Hbase, Hcopy.
  exists sql, overrides, results.
  split; [done|]. split.
  { unfold request_overrides, bindE. by rewrite Hstage. }
  split; [done|]. split; [done|]. split.
  { unfold base. by rewrite deref_dict_update. }
  split; [done|]. split; [done|]. split; [done|]. split.
  { intros Hnone Hold. rewrite Hbase, Hold, Hnone.
    by rewrite (left_id_L ∅ (∪)). }
  intros later Hheap Hshared.
  assert (Hread : default ∅ (heap later
                             !! Manifest.macros (_base_manifest (self later)))
                  = overrides ∪ before).
  { rewrite Hshared, Hheap. fold base. by rewrite Hbase. }
  split; [exact Hread|].
  intros later' node2 Hlater.
  destruct (_get_exec_node_Ret _ _ _ Hlater)
    as (sql2 & overrides2 & results2 & Hstage2 & Hparse2 & _ & Hbase2 & _).
  rewrite Hread in Hbase2.
  assert (Hloc : Manifest.macros (_base_manifest (self later)) = base)
    by (by rewrite Hshared).
  rewrite Hloc in Hparse2, Hbase2.
  exists sql2, overrides2, results2.
  split; [done|]. split; [|split; [done|done]].
  rewrite <- Hloc. rewrite deref_dict_update. by rewrite Hread.
Qed.
End ContextBuilder.

(** ** The cancellable executor *)

Section Executor.
Context `{Collaborators}.
Variable env : Env.

Lemma checkpoint_pass (p : Interrupt) (w : World) :
  interrupt env ≠ p → checkpoint env p w = (w, Ret tt).
Proof. intros Hne. unfold checkpoint. by destruct (decide _). Qed.

Lemma checkpoint_hit (p : Interrupt) (w : World) :
  interrupt env = p → checkpoint env p w = (w, Raise KeyboardInterrupt).
Proof. intros Heq. unfold checkpoint. by destruct (decide _). Qed.

Lemma for_each_emit (f : string → Event) (names : list string) (w : World) :
  for_each names (λ n, emit (f n)) w
  = (with_trace (λ t, t ++ map f names) w, Ret tt).
Proof.
  revert w. induction names as [|n names IH]; intros w; simpl.
  - unfold ret, with_trace. destruct w; simpl. by rewrite app_nil_r.
  - unfold bind, emit, modify at 1. rewrite IH.
    unfold with_trace. simpl. by rewrite <- app_assoc.
Qed.

Lemma handle_request_try_reaches_wait (w0 w1 : World) (node : ParsedNode.t) :
  interrupt env ≠ BeforeParsing →
  interrupt env ≠ AfterParsing →
  interrupt env ≠ BeforeStart →
  _get_exec_node w0 = (w1, Ret node) →
  handle_request_try env w0 = thread_done_wait env (waiting node w1).
Proof.
  intros H1 H2 H3 Hnode. unfold handle_request_try.
  rewrite (bind_Ret _ _ _ _ _ (checkpoint_pass _ _ H1)).
  rewrite (bind_Ret _ _ _ _ _ Hnode).
  rewrite (bind_Ret _ _ _ _ _ (checkpoint_pass _ _ H2)).
  unfold bind at 1, modify at 1. unfold bind at 1, modify at 1.
  unfold bind at 1, modify at 1.
  rewrite (bind_Ret _ _ _ _ _ (checkpoint_pass _ _ H3)).
  reflexivity.
Qed.

(** Once it has its runner, the worker lets no exception out and sets
    the event in every case. *)
Lemma _in_thread_returns (node : ParsedNode.t) (w : World) (runner : Runner) :
  get_runner (config (self w)) node = inr runner →
  ∃ w', _in_thread node w = (w', Ret tt)
    ∧ thread_done w' = true
    ∧ heap w' = heap w
    ∧ thread w' = thread w
    ∧ connections_cancelled w' = connections_cancelled w
    ∧ match safe_run runner
                     (deref (heap w) (manifest (self w)))
                     (connections_cancelled w) with
      | inr r =>
          self w' = append_node_result r (self w)
          ∧ trace w' = trace w ++ [EvSafeRun; EvDoneSet]
      | inl exc =>
          self w' = set_raise_next_tick exc (self w)
          ∧ trace w' = trace w ++ [EvSafeRun;
                                   EvLogDebug ("Got exception " +:+ exc_str exc);
                                   EvDoneSet]
      end.
Proof.
  intros Hrunner.
  unfold _in_thread. unfold bind at 1, get at 1.
  rewrite Hrunner. unfold bind at 1, lift, ret.
  unfold try_finally, try_except_Exception, bind, lift, get,
    modify, emit, raise, ret. simpl.
  destruct (safe_run _ _ _) as [exc|r]; simpl;
    (eexists; split; [reflexivity|]); simpl;
    rewrite <- ?app_assoc; done.
Qed.

(** [get_runner] is called before the [try] block: what it raises leaves
    the worker, and nothing is written, the event included. *)
Lemma _in_thread_dies (node : ParsedNode.t) (w : World) (e : Exc) :
  get_runner (config (self w)) node = inl e →
  _in_thread node w = (w, Raise (Exception e)).
Proof.
  intros Hrunner. unfold _in_thread. unfold bind at 1, get at 1.
  by rewrite Hrunner.
Qed.

Lemma _in_thread_Ret (node : ParsedNode.t) (w w' : World) :
  _in_thread node w = (w', Ret tt) →
  thread_done w' = true
  ∧ ∃ runner, get_runner (config (self w)) node = inr runner.
Proof.
  intros Hrun.
  destruct (get_runner (config (self w)) node) as [e|runner] eqn:Hrunner.
  - rewrite (_in_thread_dies _ _ _ Hrunner) in Hrun. done.
  - destruct (_in_thread_returns _ _ _ Hrunner) as (w'' & Hrun' & Hdone & _).
    rewrite Hrun in Hrun'. simplify_eq. split; [done|by eexists].
Qed.

(** [_get_exec_node] neither reads nor writes the local [thread]. *)
Lemma _get_exec_node_with_thread (t : option Thread) (w : World) :
  _get_exec_node (with_thread t w)
  = (with_thread t (_get_exec_node w).1, (_get_exec_node w).2).
Proof.
  unfold _get_exec_node, add_new_refs, bind, lift, get, modify, raise, ret.
  simpl.
  destruct (_extract_request_data (a_sql (args (self w))))
    as [e|[sql macros]]; [done|].
  simpl.
  destruct (Py.truthy macros); simpl.
  - destruct (RPCMacroParser_parse_remote _ _ _) as [e|[parsed results]];
      simpl; [done|].
    destruct (RPCCallParser_parse_remote _ _ _ _ _ _) as [e|node];
      simpl; [done|].
    destruct (resolve_refs _ _ _); simpl; [done|].
    destruct (compile_manifest _ _); simpl; done.
  - destruct (RPCCallParser_parse_remote _ _ _ _ _ _) as [e|node];
      simpl; [done|].
    destruct (resolve_refs _ _ _); simpl; [done|].
    destruct (compile_manifest _ _); simpl; done.
Qed.

Lemma thread_done_wait_interrupted (w : World) :
  interrupt env = WorkerRunning →
  thread_done_wait env w = (w, Raise KeyboardInterrupt).
Proof. intros Hi. unfold thread_done_wait. by rewrite Hi. Qed.

Lemma handle_request_interrupted (w w2 w3 : World) (e : BaseExc) :
  handle_request_try env (with_thread None w) = (w2, Raise KeyboardInterrupt) →
  on_KeyboardInterrupt w2 = (w3, Raise e) →
  handle_request env w = (w3, Raise e).
Proof.
  intros Htry Hexcept. unfold handle_request.
  unfold bind at 1, modify at 1.
  apply bind_Raise. unfold try_except_KeyboardInterrupt.
  by rewrite Htry.
Qed.

Lemma handle_request_try_interrupted_running
    (w w1 : World) (node : ParsedNode.t) :
  interrupt env = WorkerRunning →
  _get_exec_node w = (w1, Ret node) →
  handle_request_try env (with_thread None w)
  = (waiting node (with_thread None w1), Raise KeyboardInterrupt).
Proof.
  intros Hi Hnode.
  rewrite (handle_request_try_reaches_wait _ (with_thread None w1) node);
    try (rewrite Hi; done).
  - by apply thread_done_wait_interrupted.
  - rewrite _get_exec_node_with_thread. by rewrite Hnode.
Qed.

(** C3.  An interrupt while the worker runs, with an adapter that cannot
    cancel: the request fails with [RPCKilledException(SIGINT)]; the
    coordinating thread only logs that cancellation is unsupported, it
    neither joins nor waits for the worker, which is left running and
    whose result is not collected. *)
Theorem interrupt_with_non_cancelable_adapter
    (w w1 : World) (node : ParsedNode.t) :
  interrupt env = WorkerRunning →
  _get_exec_node w = (w1, Ret node) →
  is_cancelable (get_adapter (config (self w))) = false →
  ∃ w',
    handle_request env w
    = (w', Raise (Exception (RPCKilledException SIGINT)))
    ∧ trace w'
      = trace w
        ++ [EvThreadStart;
            EvLogDebug
              ("The " +:+ adapter_type (get_adapter (config (self w)))
               +:+ " adapter does not support query "
               +:+ "cancellation. Some queries may still be "
               +:+ "running!")]
    ∧ thread w'
      = Some {| thread_node := node; phase := Alive; joined := false |}
    ∧ thread_done w' = false
    ∧ node_results (self w') = []
    ∧ _raise_next_tick (self w') = None.
Proof.
  intros Hi Hnode Hcancel.
  destruct (_get_exec_node_frame _ _ _ Hnode)
    as [(_ & _ & _ & Htrace & _ & Hconfig & _) _].
  eexists. split.
  - eapply handle_request_interrupted.
    + by apply handle_request_try_interrupted_running.
    + unfold on_KeyboardInterrupt, bind, get, emit, modify, raise. simpl.
      rewrite Hconfig, Hcancel. reflexivity.
  - simpl. rewrite Htrace, <- app_assoc. done.
Qed.

Lemma run_thread_alive (w w' : World) (t : Thread) :
  thread w = Some t →
  phase t = Alive →
  _in_thread (thread_node t) w = (w', Ret tt) →
  run_thread w = (with_thread (Some (set_phase Done t)) w', Ret tt).
Proof.
  intros Ht Hphase Hrun.
  unfold run_thread. by rewrite Ht, Hphase, Hrun.
Qed.

Lemma run_thread_died (w : World) (t : Thread) (e : Exc) :
  thread w = Some t →
  phase t = Alive →
  get_runner (config (self w)) (thread_node t) = inl e →
  run_thread w
  = (with_trace (λ tr, tr ++ [EvWorkerDied (Exception e)])
       (with_thread (Some (set_phase Done t)) w),
     Ret tt).
Proof.
  intros Ht Hphase Hrunner.
  unfold run_thread. by rewrite Ht, Hphase, (_in_thread_dies _ _ _ Hrunner).
Qed.

(** A thread that runs comes to its end: with its target returned, or
    with the exception that left it. *)
Lemma run_thread_returns (w : World) :
  ∃ w', run_thread w = (w', Ret tt)
    ∧ config (self w') = config (self w)
    ∧ connections_cancelled w' = connections_cancelled w
    ∧ (∀ t, thread w = Some t →
         thread w'
         = Some (match phase t with Alive => set_phase Done t | _ => t end)).
Proof.
  unfold run_thread.
  destruct (thread w) as [t|] eqn:Ht; [|by eexists].
  destruct (phase t) eqn:Hphase;
    try (eexists; split; [done|]; repeat split; try done;
         intros t' [= <-]; by rewrite Hphase).
  destruct (get_runner (config (self w)) (thread_node t))
    as [e|runner] eqn:Hrunner.
  - rewrite (_in_thread_dies _ _ _ Hrunner).
    eexists. split; [done|]. repeat split; try done.
    intros t' [= <-]. by rewrite Hphase.
  - destruct (_in_thread_returns _ _ _ Hrunner)
      as (w' & Hrun & _ & _ & _ & Hconn & Hcase).
    rewrite Hrun. eexists. split; [done|]. simpl.
    split; [|split; [done|]].
    + by destruct (safe_run _ _ _); destruct Hcase as [-> _].
    + intros t' [= <-]. by rewrite Hphase.
Qed.

Lemma handle_request_cancels_and_joins
    (w w1 w3 : World) (node : ParsedNode.t) :
  interrupt env = WorkerRunning →
  _get_exec_node w = (w1, Ret node) →
  is_cancelable (get_adapter (config (self w))) = true →
  run_thread
    (cancelled node (open_connection_names (get_adapter (config (self w))))
               w1)
  = (w3, Ret tt) →
  handle_request env w
  = (with_trace (λ t, t ++ [EvJoin])
       (with_thread (set_joined <$> thread w3) w3),
     Raise (Exception (RPCKilledException SIGINT))).
Proof.
  intros Hi Hnode Hcancel Hthread.
  destruct (_get_exec_node_frame _ _ _ Hnode)
    as [(_ & _ & _ & _ & _ & Hconfig & _) _].
  set (names := open_connection_names (get_adapter (config (self w)))) in *.
  eapply handle_request_interrupted.
  - by apply handle_request_try_interrupted_running.
  - unfold on_KeyboardInterrupt. unfold bind at 1, get at 1.
    simpl. rewrite Hconfig, Hcancel.
    unfold bind at 2, bind at 1, emit at 1, modify at 1.
    unfold bind at 1, modify at 1.
    unfold bind at 1.
    rewrite (for_each_emit (λ n, EvLogDebug ("canceled query " +:+ n))).
    fold names. fold (cancelled node names w1).
    unfold bind at 1, get at 1. simpl.
    unfold thread_join, bind at 1, get at 1. simpl.
    unfold bind at 1. rewrite Hthread.
    unfold bind, get, modify, emit, raise. simpl. reflexivity.
Qed.

(** C2.  An interrupt while the worker runs, with an adapter that can
    cancel: [cancel_open_connections()] is called, then the worker is
    joined (it runs to its end: with a result or with an exception of the
    run, and the event set; or, when [get_runner] raised, with that
    exception and the event not set), and only then the request fails,
    always with [RPCKilledException(SIGINT)]. *)
Theorem interrupt_with_cancelable_adapter
    (w w1 : World) (node : ParsedNode.t) :
  interrupt env = WorkerRunning →
  _get_exec_node w = (w1, Ret node) →
  is_cancelable (get_adapter (config (self w))) = true →
  ∃ (w' : World) (worker_events : list Event),
    handle_request env w
    = (w', Raise (Exception (RPCKilledException SIGINT)))
    ∧ trace w'
      = trace w
        ++ [EvThreadStart; EvCancelOpenConnections]
        ++ map (λ n, EvLogDebug ("canceled query " +:+ n))
               (open_connection_names (get_adapter (config (self w))))
        ++ worker_events ++ [EvJoin]
    ∧ match get_runner (config (self w1)) node with
      | inr runner =>
          (worker_events = [EvSafeRun; EvDoneSet]
           ∨ ∃ exc, worker_events
                    = [EvSafeRun;
                       EvLogDebug ("Got exception " +:+ exc_str exc);
                       EvDoneSet]
                    ∧ _raise_next_tick (self w') = Some exc)
          ∧ thread_done w' = true
      | inl e =>
          worker_events = [EvWorkerDied (Exception e)]
          ∧ thread_done w' = false
      end
    ∧ thread w'
      = Some {| thread_node := node; phase := Done; joined := true |}
    ∧ connections_cancelled w' = true.
Proof.
  intros Hi Hnode Hcancel.
  destruct (_get_exec_node_frame _ _ _ Hnode)
    as [(_ & _ & _ & Htrace & _ & Hconfig & _) _].
  set (names := open_connection_names (get_adapter (config (self w)))).
  destruct (get_runner (config (self w1)) node) as [e|runner] eqn:Hrunner.
  - pose proof (run_thread_died (cancelled node names w1)
                  {| thread_node := node; phase := Alive; joined := false |}
                  e eq_refl eq_refl Hrunner) as Hthread.
    pose proof (handle_request_cancels_and_joins w w1 _ node
                  Hi Hnode Hcancel Hthread) as Hrun.
    eexists. exists [EvWorkerDied (Exception e)].
    split; [exact Hrun|]. simpl.
    rewrite Htrace, <- !app_assoc. simpl. repeat split; done.
  - destruct (_in_thread_returns node (cancelled node names w1) runner Hrunner)
      as (w3 & Hworker & Hdone & _ & _ & Hconn & Hcase).
    pose proof (run_thread_alive (cancelled node names w1) w3
                  {| thread_node := node; phase := Alive; joined := false |}
                  eq_refl eq_refl Hworker) as Hthread.
    pose proof (handle_request_cancels_and_joins w w1 _ node
                  Hi Hnode Hcancel Hthread) as Hrun.
    destruct (safe_run _ _ _) as [exc|r]; destruct Hcase as [Hself Htr].
    + eexists. exists [EvSafeRun;
                       EvLogDebug ("Got exception " +:+ exc_str exc);
                       EvDoneSet].
      split; [exact Hrun|]. simpl. rewrite Htr, Hdone, Hconn. simpl.
      rewrite Htrace, <- !app_assoc. simpl. repeat split; try done.
      right. exists exc. split; [done|]. by rewrite Hself.
    + eexists. exists [EvSafeRun; EvDoneSet].
      split; [exact Hrun|]. simpl. rewrite Htr, Hdone, Hconn. simpl.
      rewrite Htrace, <- !app_assoc. simpl. repeat split; try done.
      by left.
Qed.

(** Without an interrupt the [try] block ends when the worker has run and
    set the event. *)
Lemma handle_request_try_completes (w w1 w3 : World) (node : ParsedNode.t) :
  interrupt env = NoInterrupt →
  _get_exec_node w = (w1, Ret node) →
  _in_thread node (waiting node (with_thread None w1)) = (w3, Ret tt) →
  handle_request_try env (with_thread None w)
  = (with_trace (λ t, t ++ [EvWaitReturned])
       (with_thread
          (Some {| thread_node := node; phase := Done; joined := false |})
          w3),
     Ret tt).
Proof.
  intros Hi Hnode Hworker.
  rewrite (handle_request_try_reaches_wait _ (with_thread None w1) node);
    try (rewrite Hi; done).
  2: { rewrite _get_exec_node_with_thread. by rewrite Hnode. }
  pose proof (run_thread_alive (waiting node (with_thread None w1)) w3
                {| thread_node := node; phase := Alive; joined := false |}
                eq_refl eq_refl Hworker) as Hthread.
  destruct (_in_thread_Ret _ _ _ Hworker) as [Hdone _].
  unfold thread_done_wait. rewrite Hi. simpl.
  unfold bind at 1. rewrite Hthread.
  unfold bind, get, emit, modify. simpl. by rewrite Hdone.
Qed.

(** After the [try] block: the pending exception, if any, is raised;
    otherwise the envelope is assembled. *)
Lemma handle_request_after_try (w w4 : World) :
  handle_request_try env (with_thread None w) = (w4, Ret tt) →
  handle_request env w
  = match _raise_next_tick (self w4) with
    | Some exc => (w4, Raise (Exception exc))
    | None =>
        (with_trace (λ t, t ++ [EvGetResult]) w4,
         Ret (get_result (node_results (self w4))
                         (utcnow_ended env - utcnow_started env)%Z
                         (utcnow_ended env)))
    end.
Proof.
  intros Htry. unfold handle_request.
  unfold bind at 1, modify at 1.
  unfold bind at 1, try_except_KeyboardInterrupt. rewrite Htry.
  unfold _raise_set_error, bind, get, emit, modify, raise, ret.
  by destruct (_raise_next_tick (self w4)).
Qed.

(** C4 (amended).  Once the worker has obtained its runner, it catches
    what [safe_run] raises, stores it in [_raise_next_tick] and sets the
    event whether the run returns or raises; no exception of the run
    leaves the worker.  On the path without interrupt the coordinating
    thread raises the stored exception after the event was set and
    before any envelope is assembled. *)
Theorem worker_exception_is_stored_and_reraised :
  (∀ (n : ParsedNode.t) (w0 : World) (runner : Runner),
      get_runner (config (self w0)) n = inr runner →
      ∃ w0',
        _in_thread n w0 = (w0', Ret tt)
        ∧ thread_done w0' = true
        ∧ match safe_run runner (deref (heap w0) (manifest (self w0)))
                         (connections_cancelled w0) with
          | inr r =>
              node_results (self w0') = node_results (self w0) ++ [r]
              ∧ _raise_next_tick (self w0') = _raise_next_tick (self w0)
          | inl exc =>
              node_results (self w0') = node_results (self w0)
              ∧ _raise_next_tick (self w0') = Some exc
          end)
  ∧ (∀ (w w1 : World) (node : ParsedNode.t) (runner : Runner) (exc : Exc),
      interrupt env = NoInterrupt →
      _get_exec_node w = (w1, Ret node) →
      get_runner (config (self w1)) node = inr runner →
      safe_run runner (deref (heap w1) (manifest (self w1)))
               (connections_cancelled w1) = inl exc →
      ∃ w',
        handle_request env w = (w', Raise (Exception exc))
        ∧ _raise_next_tick (self w') = Some exc
        ∧ thread_done w' = true
        ∧ node_results (self w') = []
        ∧ trace w'
          = trace w
            ++ [EvThreadStart; EvSafeRun;
                EvLogDebug ("Got exception " +:+ exc_str exc);
                EvDoneSet; EvWaitReturned]).
Proof.
  split.
  { intros n w0 runner Hrunner.
    destruct (_in_thread_returns n w0 runner Hrunner)
      as (w0' & Hrun & Hdone & _ & _ & _ & Hcase).
    exists w0'. split; [done|]. split; [done|].
    by destruct (safe_run _ _ _); destruct Hcase as [-> _]. }
  intros w w1 node runner exc Hi Hnode Hrunner Hfail.
  destruct (_get_exec_node_frame _ _ _ Hnode)
    as [(_ & _ & _ & Htrace & _) _].
  destruct (_in_thread_returns node (waiting node (with_thread None w1))
              runner Hrunner)
    as (w3 & Hworker & Hdone & _ & _ & _ & Hcase).
  simpl in Hcase. rewrite Hfail in Hcase. destruct Hcase as [Hself Htr].
  pose proof (handle_request_try_completes w w1 w3 node Hi Hnode Hworker)
    as Htry.
  eexists. split.
  - rewrite (handle_request_after_try _ _ Htry). simpl.
    rewrite Hself. simpl. reflexivity.
  - simpl. rewrite Hself, Hdone, Htr. simpl.
    rewrite Htrace, <- !app_assoc. done.
Qed.

(** C7.  When [_get_exec_node] raises (a parse error of the macros or of
    the statement, a resolution error of the merge step), the exception
    leaves [handle_request] as it is, and no thread was created. *)
Theorem context_failure_aborts_before_spawn
    (w w1 : World) (exc : Exc) :
  interrupt env ≠ BeforeParsing →
  _get_exec_node w = (w1, Raise (Exception exc)) →
  ∃ w',
    handle_request env w = (w', Raise (Exception exc))
    ∧ thread w' = None
    ∧ trace w' = trace w.
Proof.
  intros Hi Hnode.
  destruct (_get_exec_node_frame _ _ _ Hnode)
    as [(_ & _ & _ & Htrace & _) _].
  exists (with_thread None w1). split; [|done].
  unfold handle_request. unfold bind at 1, modify at 1.
  apply bind_Raise. unfold try_except_KeyboardInterrupt, handle_request_try.
  rewrite (bind_Ret _ _ _ _ _ (checkpoint_pass _ _ Hi)).
  unfold bind at 1. rewrite _get_exec_node_with_thread, Hnode. done.
Qed.

(** *** The [macros] parameter *)

Lemma ignores_ret {A} (a : A) : ignores_macros (ret a).
Proof. done. Qed.

Lemma ignores_raise {A} (e : BaseExc) : ignores_macros (raise (A:=A) e).
Proof. done. Qed.

Lemma ignores_bind {A B} (c : M World A) (k : A → M World B) :
  ignores_macros c → (∀ a, ignores_macros (k a)) →
  ignores_macros (bind c k).
Proof.
  intros Hc Hk m w. unfold bind. rewrite Hc.
  destruct (c w) as [w' [a|e|]]; simpl; [apply Hk|done..].
Qed.

Lemma ignores_emit (e : Event) : ignores_macros (emit e).
Proof. done. Qed.

Lemma ignores_checkpoint (p : Interrupt) : ignores_macros (checkpoint env p).
Proof. intros m w. unfold checkpoint. by destruct (decide _). Qed.

Lemma ignores_for_each {A} (l : list A) (body : A → M World unit) :
  (∀ a, ignores_macros (body a)) → ignores_macros (for_each l body).
Proof.
  intros Hbody. induction l as [|a l IH]; [done|].
  simpl. by apply ignores_bind.
Qed.

Lemma ignores_try_except_KeyboardInterrupt {A} (body handler : M World A) :
  ignores_macros body → ignores_macros handler →
  ignores_macros (try_except_KeyboardInterrupt body handler).
Proof.
  intros Hb Hh m w. unfold try_except_KeyboardInterrupt. rewrite Hb.
  destruct (body w) as [w' [a|[e|]|]]; simpl; [done..|apply Hh|done].
Qed.

Lemma ignores__get_exec_node : ignores_macros _get_exec_node.
Proof.
  intros m w.
  unfold _get_exec_node, add_new_refs, bind, lift, get, modify, raise, ret.
  simpl.
  destruct (_extract_request_data (a_sql (args (self w))))
    as [e|[sql macros]]; [done|].
  simpl.
  destruct (Py.truthy macros); simpl.
  - destruct (RPCMacroParser_parse_remote _ _ _) as [e|[parsed results]];
      simpl; [done|].
    destruct (RPCCallParser_parse_remote _ _ _ _ _ _) as [e|node];
      simpl; [done|].
    destruct (resolve_refs _ _ _); simpl; [done|].
    destruct (compile_manifest _ _); simpl; done.
  - destruct (RPCCallParser_parse_remote _ _ _ _ _ _) as [e|node];
      simpl; [done|].
    destruct (resolve_refs _ _ _); simpl; [done|].
    destruct (compile_manifest _ _); simpl; done.
Qed.

Lemma ignores__in_thread (node : ParsedNode.t) :
  ignores_macros (_in_thread node).
Proof.
  intros m w.
  unfold _in_thread, try_finally, try_except_Exception, bind, lift, get,
    modify, emit, raise, ret. simpl.
  destruct (get_runner _ _) as [e|runner]; simpl; [done|].
  destruct (safe_run _ _ _) as [exc|r]; simpl; done.
Qed.

Lemma ignores_run_thread : ignores_macros run_thread.
Proof.
  intros m w. unfold run_thread. simpl.
  destruct (thread w) as [t|]; [|done].
  destruct (phase t); try done.
  rewrite ignores__in_thread.
  destruct (_in_thread (thread_node t) w) as [w' [[]|e|]]; done.
Qed.

Lemma ignores_get_bind {A} (k : World → M World A) :
  (∀ m w, k (with_self (set_args_macros m) w)
            (with_self (set_args_macros m) w)
          = (with_self (set_args_macros m) (k w w).1, (k w w).2)) →
  ignores_macros (bind get k).
Proof. intros Hk m w. unfold bind, get. apply Hk. Qed.

Lemma ignores_thread_done_wait : ignores_macros (thread_done_wait env).
Proof.
  unfold thread_done_wait. destruct (decide _); [done|].
  apply ignores_bind; [apply ignores_run_thread|]. intros _.
  apply ignores_get_bind. intros m w. simpl.
  destruct (decide _); [done|]. by destruct (thread_done w).
Qed.

Lemma ignores_thread_join : ignores_macros thread_join.
Proof.
  apply ignores_get_bind. intros m w. simpl.
  destruct (thread w) as [t|]; [|done].
  destruct (phase t); [done| |];
    (refine (ignores_bind _ _ _ _ m w);
     [apply ignores_run_thread|]; intros _;
     apply ignores_get_bind; by intros m' w').
Qed.

Lemma ignores_on_KeyboardInterrupt : ignores_macros on_KeyboardInterrupt.
Proof.
  apply ignores_get_bind. intros m w. simpl.
  refine (ignores_bind _ _ _ _ m w); [|intros; apply ignores_raise].
  destruct (is_cancelable _); [|apply ignores_emit].
  apply ignores_bind; [apply ignores_emit|]. intros _.
  apply ignores_bind; [done|]. intros _.
  apply ignores_bind; [by apply ignores_for_each|]. intros _.
  apply ignores_get_bind. intros m' w'. simpl.
  destruct (thread w'); [apply ignores_thread_join|done].
Qed.

Lemma ignores_handle_request_try : ignores_macros (handle_request_try env).
Proof.
  unfold handle_request_try.
  apply ignores_bind; [apply ignores_checkpoint|]. intros _.
  apply ignores_bind; [apply ignores__get_exec_node|]. intros node.
  apply ignores_bind; [apply ignores_checkpoint|]. intros _.
  apply ignores_bind; [done|]. intros _.
  apply ignores_bind; [done|]. intros _.
  apply ignores_bind; [done|]. intros _.
  apply ignores_bind; [apply ignores_checkpoint|]. intros _.
  apply ignores_bind; [|intros _; apply ignores_thread_done_wait].
  apply ignores_get_bind. by intros m w.
Qed.

Lemma ignores_handle_request : ignores_macros (handle_request env).
Proof.
  unfold handle_request.
  apply ignores_bind; [done|]. intros _.
  apply ignores_bind.
  { apply ignores_try_except_KeyboardInterrupt;
      [apply ignores_handle_request_try|apply ignores_on_KeyboardInterrupt]. }
  intros _. apply ignores_bind.
  { apply ignores_get_bind. intros m w. simpl.
    by destruct (_raise_next_tick (self w)). }
  intros _. apply ignores_get_bind. by intros m w.
Qed.

(** C10.  Two requests that differ only in the [macros] parameter: the
    parsed node, the graphs, the trace and the outcome of the request are
    the same; the two final states differ in [args.macros] alone. *)
Theorem macros_parameter_is_ignored
    (w : World) (p1 p2 : RPCExecParameters) :
  p_name p1 = p_name p2 →
  p_sql p1 = p_sql p2 →
  let parsed p := _get_exec_node (with_self (set_args p) w) in
  let served p := handle_request env (with_self (set_args p) w) in
  (parsed p2).2 = (parsed p1).2
  ∧ manifest (self (parsed p2).1) = manifest (self (parsed p1).1)
  ∧ heap (parsed p2).1 = heap (parsed p1).1
  ∧ (served p2).2 = (served p1).2
  ∧ (served p2).1
    = with_self (set_args_macros (p_macros p2)) (served p1).1.
Proof.
  intros Hname Hsql parsed served.
  assert (Hw : with_self (set_args p2) w
               = with_self (set_args_macros (p_macros p2))
                           (with_self (set_args p1) w)).
  { unfold with_self, set_args, set_args_macros. simpl.
    by rewrite Hname, Hsql. }
  unfold parsed, served. rewrite Hw.
  rewrite ignores__get_exec_node, ignores_handle_request. done.
Qed.

(** *** How many workers a request starts *)

Lemma spawns_app (l1 l2 : list Event) :
  spawns (l1 ++ l2) = spawns l1 + spawns l2.
Proof. unfold spawns. by rewrite List.filter_app, length_app. Qed.

Lemma spawns_silent {A} (c : M World A) :
  (∀ w, trace (c w).1 = trace w) → spawns_at_most 0 c.
Proof.
  intros Hc w. exists []. rewrite Hc, app_nil_r. split; [done|].
  unfold spawns. simpl. lia.
Qed.

Lemma spawns_weaken {A} (n n' : nat) (c : M World A) :
  (n ≤ n')%nat → spawns_at_most n c → spawns_at_most n' c.
Proof.
  intros Hle Hc w. destruct (Hc w) as (new & ? & ?).
  exists new. split; [done|lia].
Qed.

Lemma spawns_bind {A B} (n1 n2 : nat) (c : M World A) (k : A → M World B) :
  spawns_at_most n1 c → (∀ a, spawns_at_most n2 (k a)) →
  spawns_at_most (n1 + n2) (bind c k).
Proof.
  intros Hc Hk w. unfold bind. destruct (Hc w) as (new1 & Htr1 & Hn1).
  destruct (c w) as [w' [a|e|]]; simpl in *.
  - destruct (Hk a w') as (new2 & Htr2 & Hn2).
    exists (new1 ++ new2). rewrite Htr2, Htr1, app_assoc, spawns_app.
    split; [done|lia].
  - exists new1. split; [done|lia].
  - exists new1. split; [done|lia].
Qed.

Lemma spawns_get_bind {A} (n : nat) (k : World → M World A) :
  (∀ w, spawns_at_most n (k w)) → spawns_at_most n (bind get k).
Proof. intros Hk w. unfold bind, get. apply Hk. Qed.

Lemma spawns_emit (e : Event) :
  e ≠ EvThreadStart → spawns_at_most 0 (emit e).
Proof.
  intros He w. exists [e]. split; [done|].
  unfold spawns. simpl. rewrite bool_decide_eq_false_2 by done. simpl. lia.
Qed.

Lemma spawns_for_each {A} (l : list A) (body : A → M World unit) :
  (∀ a, spawns_at_most 0 (body a)) → spawns_at_most 0 (for_each l body).
Proof.
  intros Hbody. induction l as [|a l IH]; simpl.
  - by apply spawns_silent.
  - by apply (spawns_bind 0 0).
Qed.

Lemma spawns__in_thread (node : ParsedNode.t) :
  spawns_at_most 0 (_in_thread node).
Proof.
  intros w.
  destruct (get_runner (config (self w)) node) as [e|runner] eqn:Hrunner.
  { rewrite (_in_thread_dies _ _ _ Hrunner). simpl.
    exists []. rewrite app_nil_r. split; [done|]. unfold spawns. simpl. lia. }
  destruct (_in_thread_returns node w runner Hrunner)
    as (w' & Hrun & _ & _ & _ & _ & Hcase).
  rewrite Hrun. simpl.
  destruct (safe_run _ _ _); destruct Hcase as [_ Htr]; rewrite Htr;
    (eexists; split; [done|]); unfold spawns; simpl; lia.
Qed.

Lemma spawns_run_thread : spawns_at_most 0 run_thread.
Proof.
  intros w. unfold run_thread.
  destruct (thread w) as [t|]; [|by apply (spawns_silent (ret tt))].
  destruct (phase t); try by apply (spawns_silent (ret tt)).
  destruct (spawns__in_thread (thread_node t) w) as (new & Htr & Hn).
  destruct (_in_thread (thread_node t) w) as [w' [[]|e|]]; simpl in *.
  - by exists new.
  - exists (new ++ [EvWorkerDied e]).
    rewrite Htr, <- app_assoc, spawns_app. split; [done|].
    unfold spawns at 2. simpl. lia.
  - by exists new.
Qed.

Lemma spawns_thread_join : spawns_at_most 0 thread_join.
Proof.
  apply spawns_get_bind. intros w.
  destruct (thread w) as [t|]; [|by apply spawns_silent].
  destruct (phase t); [by apply spawns_silent| |];
    (apply (spawns_bind 0 0); [apply spawns_run_thread|]; intros _;
     apply spawns_get_bind; intros w';
     apply (spawns_bind 0 0); [by apply spawns_silent|];
     intros _; by apply spawns_emit).
Qed.

Lemma spawns_on_KeyboardInterrupt : spawns_at_most 0 on_KeyboardInterrupt.
Proof.
  apply spawns_get_bind. intros w.
  apply (spawns_bind 0 0); [|intros _; by apply spawns_silent].
  destruct (is_cancelable _); [|by apply spawns_emit].
  apply (spawns_bind 0 0); [by apply spawns_emit|]. intros _.
  apply (spawns_bind 0 0); [by apply spawns_silent|]. intros _.
  apply (spawns_bind 0 0).
  { apply spawns_for_each. intros n. by apply spawns_emit. }
  intros _. apply spawns_get_bind. intros w'.
  destruct (thread w'); [apply spawns_thread_join|by apply spawns_silent].
Qed.

Lemma spawns_handle_request_try : spawns_at_most 1 (handle_request_try env).
Proof.
  unfold handle_request_try.
  apply (spawns_bind 0 1).
  { apply spawns_silent. intros w. unfold checkpoint.
    by destruct (decide _). }
  intros _. apply (spawns_bind 0 1).
  { apply spawns_silent. intros w.
    destruct (_get_exec_node w) as [w' r] eqn:Hnode.
    by destruct (_get_exec_node_frame _ _ _ Hnode)
      as [(_ & _ & _ & Htrace & _) _]. }
  intros node. apply (spawns_bind 0 1).
  { apply spawns_silent. intros w. unfold checkpoint.
    by destruct (decide _). }
  intros _. apply (spawns_bind 0 1); [by apply spawns_silent|].
  intros _. apply (spawns_bind 0 1); [by apply spawns_silent|].
  intros _. apply (spawns_bind 0 1); [by apply spawns_silent|].
  intros _. apply (spawns_bind 0 1).
  { apply spawns_silent. intros w. unfold checkpoint.
    by destruct (decide _). }
  intros _. apply (spawns_bind 1 0).
  { apply spawns_get_bind. intros w.
    apply (spawns_bind 0 1); [by apply spawns_silent|]. intros _ w'.
    exists [EvThreadStart]. split; [done|]. unfold spawns. simpl. lia. }
  intros _. unfold thread_done_wait.
  destruct (decide _); [by apply spawns_silent|].
  apply (spawns_bind 0 0); [apply spawns_run_thread|]. intros _.
  apply spawns_get_bind. intros w.
  destruct (decide _); [by apply spawns_silent|].
  destruct (thread_done w); [by apply spawns_emit|by apply spawns_silent].
Qed.

Lemma spawns_handle_request : spawns_at_most 1 (handle_request env).
Proof.
  unfold handle_request.
  apply (spawns_bind 0 1); [by apply spawns_silent|]. intros _.
  apply (spawns_bind 1 0).
  - intros w. unfold try_except_KeyboardInterrupt.
    destruct (spawns_handle_request_try w) as (new1 & Htr1 & Hn1).
    destruct (handle_request_try env w) as [w' [a|[e|]|]]; simpl in *;
      try by exists new1.
    destruct (spawns_on_KeyboardInterrupt w') as (new2 & Htr2 & Hn2).
    exists (new1 ++ new2). rewrite Htr2, Htr1, app_assoc, spawns_app.
    split; [done|lia].
  - intros _. apply (spawns_bind 0 0).
    { apply spawns_get_bind. intros w.
      destruct (_raise_next_tick (self w)); by apply spawns_silent. }
    intros _. apply spawns_get_bind. intros w.
    apply (spawns_bind 0 0); [by apply spawns_emit|].
    intros _. by apply spawns_silent.
Qed.
End Executor.

(** ** The method registry *)

Section Registry.
Context {Config ManifestT Result : Type}.
Variable shlex_split : string → Exc + list string.
Variable parse_args : list string → Exc + Namespace.
Variable recursive_subclasses : list HandlerClass.
Variable task_handle_request :
  TaskInstance Config ManifestT → Exc + Result.

Lemma first_match_Some (candidates : list HandlerClass)
    (method : option string) (c : HandlerClass) :
  RemoteRPCParameters.first_match candidates method = Some c →
  c ∈ candidates ∧ METHOD_NAME c = method.
Proof.
  induction candidates as [|c' cs IH]; simpl; [done|].
  unfold Py.eqb. case_bool_decide as Hname.
  - intros [= <-]. split; [left|done].
  - intros Hrest. destruct (IH Hrest). split; [by right|done].
Qed.

Lemma first_match_None (candidates : list HandlerClass)
    (method : option string) :
  RemoteRPCParameters.first_match candidates method = None ↔
  ∀ c, c ∈ candidates → METHOD_NAME c ≠ method.
Proof.
  induction candidates as [|c' cs IH]; simpl.
  - split; [|done]. intros _ c Hc. by apply not_elem_of_nil in Hc.
  - unfold Py.eqb. case_bool_decide as Hname.
    + split; [done|]. intros Hall. exfalso.
      apply (Hall c'); [left|done].
    + rewrite IH. split.
      * intros Hall c Hc. apply elem_of_cons in Hc as [->|Hc]; auto.
      * intros Hall c Hc. apply Hall. by right.
Qed.

(** C6.  [get_rpc_task_cls] on a method name that no enumerated handler
    type declares raises [InternalException], an internal error and not
    a validation error; on a name that some handler type declares it
    returns a handler type of the enumeration with that name, which is
    that very type when the declared names are unique. *)
Theorem get_rpc_task_cls_resolves
    (self : TaskInstance Config ManifestT) :
  let method := rpc_method (task_args self) in
  ((∀ c, c ∈ recursive_subclasses → METHOD_NAME c ≠ method) →
   ∃ msg,
     RemoteRPCParameters.get_rpc_task_cls recursive_subclasses self
     = inl (InternalException msg)
     ∧ is_internal_error (InternalException msg) = true
     ∧ is_validation_error (InternalException msg) = false)
  ∧ (∀ c, c ∈ recursive_subclasses → METHOD_NAME c = method →
     ∃ c',
       RemoteRPCParameters.get_rpc_task_cls recursive_subclasses self = inr c'
       ∧ c' ∈ recursive_subclasses
       ∧ METHOD_NAME c' = method
       ∧ (NoDup (METHOD_NAME <$> recursive_subclasses) → c' = c)).
Proof.
  intros method. unfold RemoteRPCParameters.get_rpc_task_cls. fold method. split.
  - intros Hnone. apply first_match_None in Hnone. rewrite Hnone.
    by eexists.
  - intros c Hc Hname.
    destruct (RemoteRPCParameters.first_match recursive_subclasses method) as [c'|] eqn:Hfirst.
    + apply first_match_Some in Hfirst as [Hc' Hname'].
      exists c'. repeat split; try done.
      intros Hunique.
      apply list_elem_of_lookup in Hc as [i Hi].
      apply list_elem_of_lookup in Hc' as [j Hj].
      assert (i = j) as ->; [|congruence].
      eapply NoDup_lookup; [exact Hunique| |];
        rewrite list_lookup_fmap.
      * rewrite Hi. simpl. reflexivity.
      * rewrite Hj. simpl. congruence.
    + exfalso. eapply first_match_None in Hfirst; [|exact Hc]. done.
Qed.

(** C8.  A [cli_args] request whose command line lexes and parses and
    whose parsed [rpc_method] the registry resolves: [self.args] becomes
    the parsed arguments, the resolved handler type (one of the
    enumeration, with that method name) is instantiated with the parsed
    arguments, the configuration and the manifest, and the request
    returns what that instance's [handle_request] returns. *)
Theorem cli_request_delegates
    (params : RPCCliParameters) (self : TaskInstance Config ManifestT)
    (split : list string) (parsed : Namespace) (cls : HandlerClass) :
  shlex_split (cli params) = inr split →
  parse_args split = inr parsed →
  RemoteRPCParameters.get_rpc_task_cls recursive_subclasses
    {| task_cls := task_cls self; task_args := parsed;
       task_config := task_config self;
       task_manifest := task_manifest self |} = inr cls →
  RemoteRPCParameters.set_args shlex_split parse_args params self
  = inr {| task_cls := task_cls self; task_args := parsed;
           task_config := task_config self;
           task_manifest := task_manifest self |}
  ∧ cls ∈ recursive_subclasses
  ∧ METHOD_NAME cls = rpc_method parsed
  ∧ RemoteRPCParameters.request shlex_split parse_args recursive_subclasses
                task_handle_request params self
    = task_handle_request
        {| task_cls := cls; task_args := parsed;
           task_config := task_config self;
           task_manifest := task_manifest self |}.
Proof.
  intros Hlex Hparse Hcls.
  assert (Hset : RemoteRPCParameters.set_args shlex_split parse_args params self
                 = inr {| task_cls := task_cls self; task_args := parsed;
                          task_config := task_config self;
                          task_manifest := task_manifest self |}).
  { unfold RemoteRPCParameters.set_args. rewrite Hlex. simpl. by rewrite Hparse. }
  split; [exact Hset|].
  assert (Hfirst : RemoteRPCParameters.first_match recursive_subclasses (rpc_method parsed)
                   = Some cls).
  { unfold RemoteRPCParameters.get_rpc_task_cls in Hcls. simpl in Hcls.
    destruct (RemoteRPCParameters.first_match _ _); by simplify_eq. }
  apply first_match_Some in Hfirst as [Hin Hname].
  repeat split; try done.
  unfold RemoteRPCParameters.request. rewrite Hset. simpl. unfold RemoteRPCParameters.handle_request.
  by rewrite Hcls.
Qed.
End Registry.

(** * Further properties *)

(** ** Every way through [handle_request] *)

Section Paths.
Context `{Collaborators}.
Variable env : Env.

Lemma try_before_parsing (w0 : World) :
  interrupt env = BeforeParsing →
  handle_request_try env w0 = (w0, Raise KeyboardInterrupt).
Proof.
  intros Hi. unfold handle_request_try.
  apply bind_Raise. by apply checkpoint_hit.
Qed.

Lemma try_context_failure (w0 w1 : World) (e : BaseExc) :
  interrupt env ≠ BeforeParsing →
  _get_exec_node w0 = (w1, Raise e) →
  handle_request_try env w0 = (w1, Raise e).
Proof.
  intros Hi Hnode. unfold handle_request_try.
  rewrite (bind_Ret _ _ _ _ _ (checkpoint_pass env _ _ Hi)).
  by apply bind_Raise.
Qed.

Lemma try_after_parsing (w0 w1 : World) (node : ParsedNode.t) :
  interrupt env = AfterParsing →
  _get_exec_node w0 = (w1, Ret node) →
  handle_request_try env w0 = (w1, Raise KeyboardInterrupt).
Proof.
  intros Hi Hnode. unfold handle_request_try.
  rewrite (bind_Ret _ _ _ _ tt (checkpoint_pass env BeforeParsing w0
                                  ltac:(by rewrite Hi))).
  rewrite (bind_Ret _ _ _ _ _ Hnode).
  apply bind_Raise. by apply checkpoint_hit.
Qed.

Lemma try_before_start (w0 w1 : World) (node : ParsedNode.t) :
  interrupt env = BeforeStart →
  _get_exec_node w0 = (w1, Ret node) →
  handle_request_try env w0 = (unstarted node w1, Raise KeyboardInterrupt).
Proof.
  intros Hi Hnode. unfold handle_request_try.
  rewrite (bind_Ret _ _ _ _ tt (checkpoint_pass env BeforeParsing w0
                                  ltac:(by rewrite Hi))).
  rewrite (bind_Ret _ _ _ _ _ Hnode).
  rewrite (bind_Ret _ _ _ _ tt (checkpoint_pass env AfterParsing w1
                                  ltac:(by rewrite Hi))).
  unfold bind at 1, modify at 1. unfold bind at 1, modify at 1.
  unfold bind at 1, modify at 1.
  apply bind_Raise. by apply checkpoint_hit.
Qed.

Lemma try_worker_running (w0 w1 : World) (node : ParsedNode.t) :
  interrupt env = WorkerRunning →
  _get_exec_node w0 = (w1, Ret node) →
  handle_request_try env w0 = (waiting node w1, Raise KeyboardInterrupt).
Proof.
  intros Hi Hnode.
  rewrite (handle_request_try_reaches_wait env w0 w1 node);
    try (rewrite Hi; done); [|done].
  by apply thread_done_wait_interrupted.
Qed.

(** The wait once the worker is started: the worker runs to its end and
    sets the event; then the late interrupt, if any, arrives. *)
Lemma try_worker_done (w0 w1 w3 : World) (node : ParsedNode.t) :
  interrupt env = WorkerFinished ∨ interrupt env = NoInterrupt →
  _get_exec_node w0 = (w1, Ret node) →
  _in_thread node (waiting node w1) = (w3, Ret tt) →
  handle_request_try env w0
  = if decide (interrupt env = WorkerFinished)
    then (with_thread
            (Some {| thread_node := node; phase := Done; joined := false |})
            w3,
          Raise KeyboardInterrupt)
    else (with_trace (λ t, t ++ [EvWaitReturned])
            (with_thread
               (Some {| thread_node := node; phase := Done;
                        joined := false |})
               w3),
          Ret tt).
Proof.
  intros Hi Hnode Hworker.
  rewrite (handle_request_try_reaches_wait env w0 w1 node);
    try (destruct Hi as [Hi|Hi]; rewrite Hi; done); [|done].
  pose proof (run_thread_alive (waiting node w1) w3
                {| thread_node := node; phase := Alive; joined := false |}
                eq_refl eq_refl Hworker) as Hthread.
  destruct (_in_thread_Ret _ _ _ Hworker) as [Hdone _].
  unfold thread_done_wait.
  destruct (decide (interrupt env = WorkerRunning)) as [Hr|_].
  { destruct Hi as [Hi|Hi]; rewrite Hi in Hr; done. }
  unfold bind at 1. rewrite Hthread.
  unfold bind, get, emit, modify. simpl.
  destruct (decide (interrupt env = WorkerFinished)); [done|].
  by rewrite Hdone.
Qed.

(** The wait when [get_runner] raises in the worker: the worker ends
    without setting the event; the late interrupt, if any, is raised, and
    without one the wait never returns. *)
Lemma try_worker_died (w0 w1 : World) (node : ParsedNode.t) (e : Exc) :
  interrupt env = WorkerFinished ∨ interrupt env = NoInterrupt →
  _get_exec_node w0 = (w1, Ret node) →
  get_runner (config (self w1)) node = inl e →
  handle_request_try env w0
  = (died node e (waiting node w1),
     if decide (interrupt env = WorkerFinished)
     then Raise KeyboardInterrupt else Blocked).
Proof.
  intros Hi Hnode Hrunner.
  rewrite (handle_request_try_reaches_wait env w0 w1 node);
    try (destruct Hi as [Hi|Hi]; rewrite Hi; done); [|done].
  pose proof (run_thread_died (waiting node w1)
                {| thread_node := node; phase := Alive; joined := false |}
                e eq_refl eq_refl Hrunner) as Hthread.
  unfold thread_done_wait.
  destruct (decide (interrupt env = WorkerRunning)) as [Hr|_].
  { destruct Hi as [Hi|Hi]; rewrite Hi in Hr; done. }
  unfold bind at 1. rewrite Hthread.
  unfold bind, get, emit, modify, raise, blocked. simpl.
  by destruct (decide (interrupt env = WorkerFinished)).
Qed.

(** What the interrupt handler does, case by case. *)
Lemma on_KeyboardInterrupt_not_cancelable (w : World) :
  is_cancelable (get_adapter (config (self w))) = false →
  on_KeyboardInterrupt w
  = (with_trace
       (λ t, t ++ [EvLogDebug
                     (unsupported_message (get_adapter (config (self w))))])
       w,
     Raise (Exception killed)).
Proof.
  intros Hcancel.
  unfold on_KeyboardInterrupt, bind, get, emit, modify, raise. simpl.
  by rewrite Hcancel.
Qed.

Lemma on_KeyboardInterrupt_cancelable (w : World) :
  is_cancelable (get_adapter (config (self w))) = true →
  let names := open_connection_names (get_adapter (config (self w))) in
  on_KeyboardInterrupt w
  = match thread w with
    | None => (after_cancel names w, Raise (Exception killed))
    | Some t =>
        match thread_join (after_cancel names w) with
        | (w', Ret _) => (w', Raise (Exception killed))
        | (w', Raise e) => (w', Raise e)
        | (w', Blocked) => (w', Blocked)
        end
    end.
Proof.
  intros Hcancel names.
  unfold on_KeyboardInterrupt. unfold bind at 1, get at 1.
  simpl. rewrite Hcancel.
  unfold bind at 2, bind at 1, emit at 1, modify at 1.
  unfold bind at 1, modify at 1.
  unfold bind at 1.
  rewrite (for_each_emit (λ n, EvLogDebug ("canceled query " +:+ n))).
  fold names. fold (after_cancel names w).
  unfold bind at 1, get at 1. simpl.
  destruct (thread w) as [t|]; [|done].
  unfold bind. by destruct (thread_join (after_cancel names w)) as [w' [[]|e|]].
Qed.

Lemma thread_join_cases (w : World) (t : Thread) :
  thread w = Some t →
  match phase t with
  | Unstarted => thread_join w = (w, Raise (Exception join_unstarted))
  | Alive =>
      ∃ w', run_thread w = (w', Ret tt)
        ∧ thread_join w
          = (with_trace (λ tr, tr ++ [EvJoin])
               (with_thread (Some (set_joined (set_phase Done t))) w'),
             Ret tt)
  | Done =>
      thread_join w
      = (with_trace (λ tr, tr ++ [EvJoin])
           (with_thread (Some (set_joined t)) w),
         Ret tt)
  end.
Proof.
  intros Ht. destruct (phase t) eqn:Hphase.
  - unfold thread_join, bind, get, raise. by rewrite Ht, Hphase.
  - destruct (run_thread_returns w) as (w' & Hrun & _ & _ & Hthread).
    specialize (Hthread t Ht). rewrite Hphase in Hthread.
    exists w'. split; [done|].
    unfold thread_join. unfold bind at 1, get at 1. rewrite Ht, Hphase.
    unfold bind at 1. rewrite Hrun.
    unfold bind, get, modify, emit. simpl. by rewrite Hthread.
  - unfold thread_join. unfold bind at 1, get at 1. rewrite Ht, Hphase.
    unfold bind at 1, run_thread. rewrite Ht, Hphase.
    unfold bind, get, modify, emit. simpl. by rewrite Ht.
Qed.

Lemma on_KeyboardInterrupt_joins_unstarted (w : World) (t : Thread) :
  is_cancelable (get_adapter (config (self w))) = true →
  thread w = Some t →
  phase t = Unstarted →
  on_KeyboardInterrupt w
  = (after_cancel (open_connection_names (get_adapter (config (self w)))) w,
     Raise (Exception join_unstarted)).
Proof.
  intros Hcancel Ht Hphase.
  rewrite (on_KeyboardInterrupt_cancelable w Hcancel). rewrite Ht.
  pose proof (thread_join_cases
                (after_cancel
                   (open_connection_names (get_adapter (config (self w))))
                   w) t Ht) as Hjoin.
  rewrite Hphase in Hjoin. by rewrite Hjoin.
Qed.

Lemma on_KeyboardInterrupt_joins_done (w : World) (t : Thread) :
  is_cancelable (get_adapter (config (self w))) = true →
  thread w = Some t →
  phase t = Done →
  on_KeyboardInterrupt w
  = (with_trace (λ tr, tr ++ [EvJoin])
       (with_thread (Some (set_joined t))
          (after_cancel
             (open_connection_names (get_adapter (config (self w)))) w)),
     Raise (Exception killed)).
Proof.
  intros Hcancel Ht Hphase.
  rewrite (on_KeyboardInterrupt_cancelable w Hcancel). rewrite Ht.
  pose proof (thread_join_cases
                (after_cancel
                   (open_connection_names (get_adapter (config (self w))))
                   w) t Ht) as Hjoin.
  rewrite Hphase in Hjoin. by rewrite Hjoin.
Qed.

(** The handler always ends with an exception: the killed error, or the
    [RuntimeError] of joining a thread that was never started. *)
Lemma on_KeyboardInterrupt_raises (w : World) :
  ∃ w' exc,
    on_KeyboardInterrupt w = (w', Raise (Exception exc))
    ∧ (exc = killed
       ∨ exc = join_unstarted
         ∧ is_cancelable (get_adapter (config (self w))) = true
         ∧ ∃ t, thread w = Some t ∧ phase t = Unstarted).
Proof.
  destruct (is_cancelable (get_adapter (config (self w)))) eqn:Hcancel.
  - rewrite (on_KeyboardInterrupt_cancelable w Hcancel).
    destruct (thread w) as [t|] eqn:Ht; [|by eauto].
    pose proof (thread_join_cases
                  (after_cancel
                     (open_connection_names (get_adapter (config (self w))))
                     w) t Ht) as Hjoin.
    destruct (phase t) eqn:Hphase.
    + rewrite Hjoin. do 2 eexists. split; [done|]. right. eauto.
    + destruct Hjoin as (w' & _ & ->). by eauto.
    + rewrite Hjoin. by eauto.
  - rewrite (on_KeyboardInterrupt_not_cancelable w Hcancel). by eauto.
Qed.

Lemma handle_request_context_failure (w w1 : World) (exc : Exc) :
  interrupt env ≠ BeforeParsing →
  _get_exec_node w = (w1, Raise (Exception exc)) →
  handle_request env w = (with_thread None w1, Raise (Exception exc)).
Proof.
  intros Hi Hnode. unfold handle_request. unfold bind at 1, modify at 1.
  apply bind_Raise. unfold try_except_KeyboardInterrupt.
  rewrite (try_context_failure _ (with_thread None w1) (Exception exc) Hi).
  - done.
  - rewrite _get_exec_node_with_thread. by rewrite Hnode.
Qed.

(** Every run of [handle_request] takes one of four ways: an interrupt
    reaches the [try] block and the handler raises; the context builder
    raises; the worker runs to its end and the pending exception, if any,
    is raised, the envelope assembled otherwise; or [get_runner] raises
    in the worker, which ends without setting the event, and the
    coordinating thread waits for ever. *)
Lemma handle_request_paths (w : World) :
  (interrupt env ≠ NoInterrupt
   ∧ ∃ w2 w' exc,
       handle_request_try env (with_thread None w)
       = (w2, Raise KeyboardInterrupt)
       ∧ on_KeyboardInterrupt w2 = (w', Raise (Exception exc))
       ∧ handle_request env w = (w', Raise (Exception exc)))
  ∨ (interrupt env ≠ BeforeParsing
     ∧ ∃ w1 exc,
         _get_exec_node w = (w1, Raise (Exception exc))
         ∧ handle_request env w
           = (with_thread None w1, Raise (Exception exc)))
  ∨ (interrupt env = NoInterrupt
     ∧ ∃ w1 node runner w3,
         _get_exec_node w = (w1, Ret node)
         ∧ get_runner (config (self w1)) node = inr runner
         ∧ _in_thread node (waiting node (with_thread None w1))
           = (w3, Ret tt)
         ∧ handle_request env w
           = let w4 :=
               with_trace (λ t, t ++ [EvWaitReturned])
                 (with_thread
                    (Some {| thread_node := node; phase := Done;
                             joined := false |})
                    w3) in
             match _raise_next_tick (self w3) with
             | Some exc => (w4, Raise (Exception exc))
             | None =>
                 (with_trace (λ t, t ++ [EvGetResult]) w4,
                  Ret (get_result (node_results (self w3))
                         (utcnow_ended env - utcnow_started env)%Z
                         (utcnow_ended env)))
             end)
  ∨ (interrupt env = NoInterrupt
     ∧ ∃ w1 node e,
         _get_exec_node w = (w1, Ret node)
         ∧ get_runner (config (self w1)) node = inl e
         ∧ handle_request env w
           = (died node e (waiting node (with_thread None w1)), Blocked)).
Proof.
  assert (Hinterrupted :
    ∀ w2, interrupt env ≠ NoInterrupt →
      handle_request_try env (with_thread None w)
      = (w2, Raise KeyboardInterrupt) →
      interrupt env ≠ NoInterrupt
      ∧ ∃ w2 w' exc,
          handle_request_try env (with_thread None w)
          = (w2, Raise KeyboardInterrupt)
          ∧ on_KeyboardInterrupt w2 = (w', Raise (Exception exc))
          ∧ handle_request env w = (w', Raise (Exception exc))).
  { intros w2 Hi Htry. split; [done|].
    destruct (on_KeyboardInterrupt_raises w2) as (w' & exc & Hexcept & _).
    exists w2, w', exc. repeat split; try done.
    by eapply handle_request_interrupted. }
  destruct (decide (interrupt env = BeforeParsing)) as [Hbp|Hbp].
  { left. apply (Hinterrupted (with_thread None w)); [by rewrite Hbp|].
    by apply try_before_parsing. }
  destruct (_get_exec_node w) as [w1 r] eqn:Hnode.
  assert (Hnode' : _get_exec_node (with_thread None w)
                   = (with_thread None w1, r)).
  { rewrite _get_exec_node_with_thread. by rewrite Hnode. }
  destruct (_get_exec_node_frame _ _ _ Hnode) as (_ & Hki & Hbl).
  destruct r as [node|[exc|]|]; [|right; left|done|done].
  2: { split; [done|]. exists w1, exc. split; [done|].
       by apply handle_request_context_failure. }
  destruct (interrupt env) eqn:Hi; [|done|left..].
  - right. right.
    destruct (get_runner (config (self w1)) node) as [e|runner] eqn:Hrunner.
    + right. split; [done|]. exists w1, node, e.
      split; [done|]. split; [done|].
      unfold handle_request. unfold bind at 1, modify at 1.
      apply bind_Blocked. unfold try_except_KeyboardInterrupt.
      rewrite (try_worker_died _ (with_thread None w1) node e);
        [|rewrite Hi; by right|done|done].
      rewrite Hi. done.
    + left. split; [done|].
      destruct (_in_thread_returns node (waiting node (with_thread None w1))
                  runner Hrunner) as (w3 & Hworker & _).
      exists w1, node, runner, w3.
      split; [done|]. split; [done|]. split; [done|].
      assert (Htry :
        handle_request_try env (with_thread None w)
        = (with_trace (λ t, t ++ [EvWaitReturned])
             (with_thread
                (Some {| thread_node := node; phase := Done;
                         joined := false |})
                w3),
           Ret tt)).
      { rewrite (try_worker_done _ (with_thread None w1) w3 node);
          [|rewrite Hi; by right|done|done].
        rewrite Hi. done. }
      rewrite (handle_request_after_try env w _ Htry). done.
  - apply (Hinterrupted (with_thread None w1)); [done|].
    apply (try_after_parsing _ _ node); [done|done].
  - apply (Hinterrupted (unstarted node (with_thread None w1))); [done|].
    by apply try_before_start.
  - apply (Hinterrupted (waiting node (with_thread None w1))); [done|].
    by apply try_worker_running.
  - destruct (get_runner (config (self w1)) node) as [e|runner] eqn:Hrunner.
    + eapply Hinterrupted; [done|].
      rewrite (try_worker_died _ (with_thread None w1) node e);
        [|rewrite Hi; by left|done|done].
      rewrite Hi. done.
    + destruct (_in_thread_returns node (waiting node (with_thread None w1))
                  runner Hrunner) as (w3 & Hworker & _).
      eapply Hinterrupted; [done|].
      rewrite (try_worker_done _ (with_thread None w1) w3 node);
        [|rewrite Hi; by left|done|done].
      rewrite Hi. done.
Qed.

End Paths.

(** ** How many workers, and when the response *)

Section Workers.
Context `{Collaborators}.

(** C9 (amended).  A request never starts more than one worker, whatever
    the interrupt and whatever fails.  When the context is built and no
    interrupt arrives, exactly one worker is started, whatever becomes of
    it.  A response is returned only on the path without interrupt and
    only after the worker has set the completion event, on which the
    coordinating thread waits; the worker is not joined on that path. *)
Theorem one_worker_and_response_after_completion_signal (env : Env) :
  (∀ (any : Env) (w0 : World),
      ∃ new, trace (handle_request any w0).1 = trace w0 ++ new
             ∧ (spawns new ≤ 1)%nat)
  ∧ (∀ (w w1 : World) (node : ParsedNode.t),
      interrupt env = NoInterrupt →
      _get_exec_node w = (w1, Ret node) →
      ∃ new, trace (handle_request env w).1 = trace w ++ new
             ∧ spawns new = 1)
  ∧ (∀ (w w' : World) (response : Response),
      handle_request env w = (w', Ret response) →
      interrupt env = NoInterrupt
      ∧ thread_done w' = true
      ∧ (∃ node, thread w'
                 = Some {| thread_node := node; phase := Done;
                           joined := false |})
      ∧ trace w'
        = trace w ++ [EvThreadStart; EvSafeRun; EvDoneSet;
                      EvWaitReturned; EvGetResult])
  ∧ (∀ (w w1 : World) (node : ParsedNode.t) (runner : Runner)
       (r : RunResult),
      interrupt env = NoInterrupt →
      _get_exec_node w = (w1, Ret node) →
      get_runner (config (self w1)) node = inr runner →
      safe_run runner (deref (heap w1) (manifest (self w1)))
               (connections_cancelled w1) = inr r →
      ∃ w',
        handle_request env w
        = (w', Ret (get_result [r]
                      (utcnow_ended env - utcnow_started env)%Z
                      (utcnow_ended env)))
        ∧ trace w'
          = trace w ++ [EvThreadStart; EvSafeRun; EvDoneSet;
                        EvWaitReturned; EvGetResult]
        ∧ thread_done w' = true
        ∧ thread w'
          = Some {| thread_node := node; phase := Done; joined := false |}).
Proof.
  assert (Hserved :
    ∀ (w w1 w3 : World) (node : ParsedNode.t) (runner : Runner),
      _get_exec_node w = (w1, Ret node) →
      get_runner (config (self w1)) node = inr runner →
      _in_thread node (waiting node (with_thread None w1)) = (w3, Ret tt) →
      thread_done w3 = true
      ∧ match safe_run runner (deref (heap w1) (manifest (self w1)))
                       (connections_cancelled w1) with
        | inr r =>
            _raise_next_tick (self w3) = None
            ∧ node_results (self w3) = [r]
            ∧ trace w3 = trace w ++ [EvThreadStart; EvSafeRun; EvDoneSet]
        | inl exc =>
            _raise_next_tick (self w3) = Some exc
            ∧ trace w3
              = trace w ++ [EvThreadStart; EvSafeRun;
                            EvLogDebug ("Got exception " +:+ exc_str exc);
                            EvDoneSet]
        end).
  { intros w w1 w3 node runner Hnode Hrunner Hworker.
    destruct (_get_exec_node_frame _ _ _ Hnode)
      as [(_ & _ & _ & Htrace & _) _].
    destruct (_in_thread_returns node (waiting node (with_thread None w1))
                runner Hrunner)
      as (w3' & Hworker' & Hdone & _ & _ & _ & Hcase).
    rewrite Hworker in Hworker'. simplify_eq. simpl in Hcase.
    split; [done|].
    destruct (safe_run _ _ _); destruct Hcase as [Hself Htr];
      rewrite Hself, Htr; simpl; rewrite Htrace, <- !app_assoc; done. }
  split; [|split; [|split]].
  - intros any w0. apply spawns_handle_request.
  - intros w w1 node Hi Hnode.
    destruct (handle_request_paths env w)
      as [(Hne & _)
         |[(_ & w1' & exc & Hnode' & _)
          |[(_ & w1' & node' & runner & w3 & Hnode' & Hrunner & Hworker
             & Hrun)
           |(_ & w1' & node' & e & Hnode' & Hrunner & Hrun)]]];
      [done|congruence| |].
    + destruct (Hserved _ _ _ _ _ Hnode' Hrunner Hworker) as [_ Hcase].
      rewrite Hrun.
      destruct (safe_run _ _ _).
      * destruct Hcase as (Hslot & Htr). simpl. rewrite Hslot. simpl.
        rewrite Htr, <- !app_assoc.
        eexists. split; reflexivity.
      * destruct Hcase as (Hslot & _ & Htr). simpl. rewrite Hslot. simpl.
        rewrite Htr, <- !app_assoc.
        eexists. split; reflexivity.
    + destruct (_get_exec_node_frame _ _ _ Hnode')
        as [(_ & _ & _ & Htrace & _) _].
      rewrite Hrun. simpl. rewrite Htrace, <- !app_assoc.
      eexists. split; reflexivity.
  - intros w w' response Hret.
    destruct (handle_request_paths env w)
      as [(_ & w2 & w'' & exc & _ & _ & Hrun)
         |[(_ & w1 & exc & _ & Hrun)
          |[(Hi & w1 & node & runner & w3 & Hnode & Hrunner & Hworker
             & Hrun)
           |(_ & w1 & node & e & _ & _ & Hrun)]]];
      [congruence|congruence| |congruence].
    split; [done|].
    destruct (Hserved _ _ _ _ _ Hnode Hrunner Hworker) as [Hdone Hcase].
    simpl in Hrun. rewrite Hret in Hrun.
    destruct (safe_run _ _ _).
    + destruct Hcase as (Hslot & _). rewrite Hslot in Hrun. done.
    + destruct Hcase as (Hslot & _ & Htr). rewrite Hslot in Hrun.
      simplify_eq. simpl. rewrite Htr, <- !app_assoc.
      split; [done|]. split; [by eexists|done].
  - intros w w1 node runner r Hi Hnode Hrunner Hok.
    destruct (_in_thread_returns node (waiting node (with_thread None w1))
                runner Hrunner) as (w3 & Hworker & _).
    destruct (Hserved _ _ _ _ _ Hnode Hrunner Hworker) as [Hdone Hcase].
    rewrite Hok in Hcase. destruct Hcase as (Hslot & Hres & Htr).
    pose proof (handle_request_try_completes env w w1 w3 node Hi Hnode
                  Hworker) as Htry.
    eexists. split.
    + rewrite (handle_request_after_try _ _ _ Htry). simpl.
      rewrite Hslot, Hres. reflexivity.
    + simpl. rewrite Hdone, Htr, <- !app_assoc. done.
Qed.
End Workers.

Section Outcomes.
Context `{Collaborators}.
Variable env : Env.

Local Ltac not_in_trace :=
  let Hin := fresh in
  intros Hin;
  repeat (apply elem_of_cons in Hin as [?|Hin]; [done|]);
  by apply not_elem_of_nil in Hin.

(** [EvGetResult] is not among the events after a late interrupt: the
    worker's events, then the cancellation with its debug lines and the
    join, or the one debug line. *)
Local Ltac late_trace :=
  let Hin := fresh in
  intros Hin;
  repeat (apply elem_of_cons in Hin as [?|Hin]; [done|]);
  try (apply elem_of_app in Hin as [Hin|Hin];
       [ apply list_elem_of_fmap in Hin as (? & ? & _); done | ]);
  repeat (apply elem_of_cons in Hin as [?|Hin]; [done|]);
  by apply not_elem_of_nil in Hin.

(** X1.  Whatever the request, the adapter and the point of the [try]
    block at which an interrupt arrives, a [KeyboardInterrupt] raised
    inside the [try] block never leaves [handle_request]: the call ends
    with a response or with an [Exception], or it never ends.  It never
    ends exactly when no interrupt arrives, the context is built and
    [get_runner] raises in the worker: the worker then ends without
    setting the event on which the coordinating thread waits. *)
Theorem handle_request_ends_unless_get_runner_raises (w : World) :
  (∃ w',
      (∃ response, handle_request env w = (w', Ret response))
      ∨ (∃ exc, handle_request env w = (w', Raise (Exception exc)))
      ∨ (handle_request env w = (w', Blocked)
         ∧ interrupt env = NoInterrupt
         ∧ thread_done w' = false
         ∧ ∃ w1 node e,
             _get_exec_node w = (w1, Ret node)
             ∧ get_runner (config (self w1)) node = inl e
             ∧ trace w'
               = trace w ++ [EvThreadStart; EvWorkerDied (Exception e)]))
  ∧ (∀ w1 node e,
        interrupt env = NoInterrupt →
        _get_exec_node w = (w1, Ret node) →
        get_runner (config (self w1)) node = inl e →
        (handle_request env w).2 = Blocked).
Proof.
  destruct (handle_request_paths env w)
    as [(Hne & w2 & w' & exc & _ & _ & Hrun)
       |[(_ & w1 & exc & Hnode & Hrun)
        |[(_ & w1 & node & runner & w3 & Hnode & Hrunner & _ & Hrun)
         |(Hi & w1 & node & e & Hnode & Hrunner & Hrun)]]].
  - split; [|done]. exists w'. right. left. by exists exc.
  - split; [|congruence]. eexists. right. left. by exists exc.
  - split; [|congruence]. simpl in Hrun.
    destruct (_raise_next_tick (self w3)) as [exc|].
    + eexists. right. left. by exists exc.
    + eexists. left. by eexists.
  - destruct (_get_exec_node_frame _ _ _ Hnode)
      as [(_ & _ & _ & Htrace & _) _].
    split.
    + eexists. right. right. split; [exact Hrun|]. split; [done|].
      split; [done|]. exists w1, node, e. split; [done|]. split; [done|].
      simpl. by rewrite Htrace, <- app_assoc.
    + intros _ _ _ _ _ _. by rewrite Hrun.
Qed.

(** X2.  A response is returned only by a run that no interrupt reached:
    the context was built, the worker had its runner and the run returned
    a result, and the response is the envelope of that one result; no
    connection was cancelled. *)
Theorem response_comes_from_an_uninterrupted_run
    (w w' : World) (response : Response) :
  handle_request env w = (w', Ret response) →
  interrupt env = NoInterrupt
  ∧ ∃ w1 node runner r,
      _get_exec_node w = (w1, Ret node)
      ∧ get_runner (config (self w1)) node = inr runner
      ∧ safe_run runner
                 (deref (heap w1) (manifest (self w1)))
                 (connections_cancelled w1) = inr r
      ∧ response = get_result [r]
                     (utcnow_ended env - utcnow_started env)%Z
                     (utcnow_ended env)
      ∧ node_results (self w') = [r]
      ∧ _raise_next_tick (self w') = None
      ∧ connections_cancelled w' = connections_cancelled w
      ∧ trace w' = trace w ++ [EvThreadStart; EvSafeRun; EvDoneSet;
                               EvWaitReturned; EvGetResult].
Proof.
  intros Hret.
  destruct (handle_request_paths env w)
    as [(_ & w2 & w'' & exc & _ & _ & Hrun)
       |[(_ & w1 & exc & _ & Hrun)
        |[(Hi & w1 & node & runner & w3 & Hnode & Hrunner & Hworker & Hrun)
         |(_ & w1 & node & e & _ & _ & Hrun)]]];
    [congruence|congruence| |congruence].
  split; [done|]. exists w1, node, runner.
  destruct (_get_exec_node_frame _ _ _ Hnode)
    as [(_ & _ & Hconn & Htrace & _) _].
  destruct (_in_thread_returns node (waiting node (with_thread None w1))
              runner Hrunner)
    as (w3' & Hworker' & _ & _ & _ & Hconn3 & Hcase).
  rewrite Hworker in Hworker'. simplify_eq. simpl in Hcase, Hrun, Hconn3.
  destruct (safe_run _ _ _) as [exc|r]; destruct Hcase as [Hself Htr].
  - rewrite Hself in Hrun. simpl in Hrun. congruence.
  - exists r. rewrite Hself in Hrun. simpl in Hrun.
    rewrite Hret in Hrun. simplify_eq. simpl.
    rewrite Hself, Htr, Hconn3. simpl. rewrite Htrace, <- !app_assoc.
    done.
Qed.

(** X3.  Without an interrupt [handle_request] never cancels the open
    connections and never joins a thread, whether the request is served,
    the context builder fails, the run fails, or the worker dies and the
    call never ends. *)
Theorem uninterrupted_request_leaves_connections_alone (w : World) :
  interrupt env = NoInterrupt →
  connections_cancelled (handle_request env w).1 = connections_cancelled w
  ∧ (∀ t, thread ((handle_request env w).1) = Some t → joined t = false)
  ∧ ∃ new,
      trace ((handle_request env w).1) = trace w ++ new
      ∧ (EvCancelOpenConnections ∉ new)
      ∧ (EvJoin ∉ new).
Proof.
  intros Hi.
  destruct (handle_request_paths env w)
    as [(Hne & _)
       |[(_ & w1 & exc & Hnode & Hrun)
        |[(_ & w1 & node & runner & w3 & Hnode & Hrunner & Hworker & Hrun)
         |(_ & w1 & node & e & Hnode & Hrunner & Hrun)]]]; [done| | |].
  - destruct (_get_exec_node_frame _ _ _ Hnode)
      as [(_ & _ & Hconn & Htrace & _) _].
    rewrite Hrun. simpl. split; [done|]. split; [done|].
    exists []. rewrite app_nil_r. split; [done|].
    split; apply not_elem_of_nil.
  - destruct (_get_exec_node_frame _ _ _ Hnode)
      as [(_ & _ & Hconn & Htrace & _) _].
    destruct (_in_thread_returns node (waiting node (with_thread None w1))
                runner Hrunner)
      as (w3' & Hworker' & _ & _ & _ & Hconn3 & Hcase).
    rewrite Hworker in Hworker'. simplify_eq. simpl in Hcase, Hrun, Hconn3.
    rewrite Hrun.
    destruct (safe_run _ _ _) as [exc|r]; destruct Hcase as [Hself Htr];
      rewrite Hself; simpl; rewrite Htr, Hconn3; simpl;
      rewrite Htrace, <- !app_assoc; simpl.
    + split; [done|]. split; [by intros t [= <-]|].
      eexists. split; [done|]. split; not_in_trace.
    + split; [done|]. split; [by intros t [= <-]|].
      eexists. split; [done|]. split; not_in_trace.
  - destruct (_get_exec_node_frame _ _ _ Hnode)
      as [(_ & _ & Hconn & Htrace & _) _].
    rewrite Hrun. simpl. rewrite Htrace, <- !app_assoc. simpl.
    split; [done|]. split; [by intros t [= <-]|].
    eexists. split; [done|]. split; not_in_trace.
Qed.

(** The handler when no thread is bound. *)
Lemma on_KeyboardInterrupt_without_thread (w2 : World) :
  thread w2 = None →
  let adapter := get_adapter (config (self w2)) in
  on_KeyboardInterrupt w2
  = (if is_cancelable adapter
     then after_cancel (open_connection_names adapter) w2
     else with_trace (λ t, t ++ [EvLogDebug (unsupported_message adapter)])
                     w2,
     Raise (Exception killed)).
Proof.
  intros Hthread adapter. unfold adapter.
  destruct (is_cancelable (get_adapter (config (self w2)))) eqn:Hcancel.
  - rewrite (on_KeyboardInterrupt_cancelable w2 Hcancel). by rewrite Hthread.
  - by apply on_KeyboardInterrupt_not_cancelable.
Qed.

(** X4.  An interrupt that arrives while no thread is bound (before the
    context is built, or right after): the request fails with the killed
    error and no worker is started or joined.  An adapter that can cancel
    is still asked to cancel all open connections; one that cannot only
    gets the debug line.  Before parsing, the heap and the task are left
    as they were. *)
Theorem interrupt_without_thread (w w1 : World) (node : ParsedNode.t) :
  interrupt env = BeforeParsing
  ∨ interrupt env = AfterParsing ∧ _get_exec_node w = (w1, Ret node) →
  let adapter := get_adapter (config (self w)) in
  ∃ w',
    handle_request env w = (w', Raise (Exception (RPCKilledException SIGINT)))
    ∧ thread w' = None
    ∧ connections_cancelled w'
      = (is_cancelable adapter || connections_cancelled w)
    ∧ trace w'
      = trace w
        ++ (if is_cancelable adapter
            then EvCancelOpenConnections
                 :: map (λ n, EvLogDebug ("canceled query " +:+ n))
                        (open_connection_names adapter)
            else [EvLogDebug (unsupported_message adapter)])
    ∧ (interrupt env = BeforeParsing →
       heap w' = heap w ∧ self w' = self w).
Proof.
  intros Hcase adapter.
  assert (∃ w2, handle_request_try env (with_thread None w)
                = (with_thread None w2, Raise KeyboardInterrupt)
                ∧ config (self w2) = config (self w)
                ∧ trace w2 = trace w
                ∧ connections_cancelled w2 = connections_cancelled w
                ∧ (interrupt env = BeforeParsing → w2 = w))
    as (w2 & Htry & Hconfig & Htrace & Hconn & Hsame).
  { destruct Hcase as [Hi|[Hi Hnode]].
    - exists w. split; [by apply try_before_parsing|done].
    - exists w1.
      destruct (_get_exec_node_frame _ _ _ Hnode)
        as [(_ & _ & Hconn & Htrace & _ & Hconfig & _) _].
      split; [|split; [done|split; [done|split; [done|]]]].
      + apply (try_after_parsing env _ _ node); [done|].
        rewrite _get_exec_node_with_thread. by rewrite Hnode.
      + intros Hbp. rewrite Hbp in Hi. done. }
  pose proof (on_KeyboardInterrupt_without_thread (with_thread None w2)
                eq_refl) as Hexcept.
  simpl in Hexcept. rewrite Hconfig in Hexcept. fold adapter in Hexcept.
  eexists. split.
  { eapply handle_request_interrupted; [exact Htry|exact Hexcept]. }
  destruct (is_cancelable adapter); simpl;
    rewrite Htrace, ?Hconn, <- ?app_assoc;
    (split; [done|split; [done|split; [done|]]]);
    intros Hbp; by rewrite (Hsame Hbp).
Qed.

(** X5.  An interrupt between [Thread(...)] and [thread.start()]: the
    local [thread] is bound to a thread that was never started.  With an
    adapter that can cancel, the handler cancels the connections and then
    joins that thread, and the [RuntimeError] of the join leaves
    [handle_request] in place of the killed error; with one that cannot,
    the killed error is raised.  No worker was started. *)
Theorem interrupt_before_start (w w1 : World) (node : ParsedNode.t) :
  interrupt env = BeforeStart →
  _get_exec_node w = (w1, Ret node) →
  let adapter := get_adapter (config (self w)) in
  ∃ w',
    handle_request env w
    = (w', Raise (Exception
                    (if is_cancelable adapter
                     then PyException "RuntimeError"
                            "cannot join thread before it is started"
                     else RPCKilledException SIGINT)))
    ∧ thread w'
      = Some {| thread_node := node; phase := Unstarted; joined := false |}
    ∧ connections_cancelled w'
      = (is_cancelable adapter || connections_cancelled w)
    ∧ trace w'
      = trace w
        ++ (if is_cancelable adapter
            then EvCancelOpenConnections
                 :: map (λ n, EvLogDebug ("canceled query " +:+ n))
                        (open_connection_names adapter)
            else [EvLogDebug (unsupported_message adapter)]).
Proof.
  intros Hi Hnode adapter.
  destruct (_get_exec_node_frame _ _ _ Hnode)
    as [(_ & _ & Hconn & Htrace & _ & Hconfig & _) _].
  assert (Htry : handle_request_try env (with_thread None w)
                 = (unstarted node (with_thread None w1),
                    Raise KeyboardInterrupt)).
  { apply try_before_start; [done|].
    rewrite _get_exec_node_with_thread. by rewrite Hnode. }
  assert (Hadapter :
            get_adapter (config (self (unstarted node (with_thread None w1))))
            = adapter).
  { simpl. by rewrite Hconfig. }
  destruct (is_cancelable adapter) eqn:Hcancel.
  - eexists. split.
    { eapply handle_request_interrupted; [exact Htry|].
      eapply on_KeyboardInterrupt_joins_unstarted;
        [by rewrite Hadapter|done..]. }
    rewrite Hadapter. simpl. rewrite Htrace, <- app_assoc. done.
  - eexists. split.
    { eapply handle_request_interrupted; [exact Htry|].
      apply on_KeyboardInterrupt_not_cancelable. by rewrite Hadapter. }
    rewrite Hadapter. simpl. rewrite Htrace, Hconn. done.
Qed.

(** X6.  An interrupt that arrives after the worker has ended, while the
    coordinating thread is still inside the [try] block: the request
    fails with the killed error although the worker is over.  When the
    worker had its runner it has set the event, and what it left on the
    task (its result, or its exception in the pending slot) stays there
    and is neither returned nor raised; when [get_runner] raised in the
    worker, the event is not set and the task holds neither a result nor
    a pending exception.  An adapter that can cancel is asked to cancel
    and the finished thread is joined. *)
Theorem late_interrupt_discards_finished_work
    (w w1 : World) (node : ParsedNode.t) :
  interrupt env = WorkerFinished →
  _get_exec_node w = (w1, Ret node) →
  let adapter := get_adapter (config (self w)) in
  ∃ w',
    handle_request env w = (w', Raise (Exception (RPCKilledException SIGINT)))
    ∧ thread w'
      = Some {| thread_node := node; phase := Done;
                joined := is_cancelable adapter |}
    ∧ match get_runner (config (self w1)) node with
      | inr runner =>
          thread_done w' = true
          ∧ match safe_run runner
                           (deref (heap w1) (manifest (self w1)))
                           (connections_cancelled w1) with
            | inr r =>
                node_results (self w') = [r]
                ∧ _raise_next_tick (self w') = None
            | inl exc =>
                node_results (self w') = []
                ∧ _raise_next_tick (self w') = Some exc
            end
      | inl e =>
          thread_done w' = false
          ∧ node_results (self w') = []
          ∧ _raise_next_tick (self w') = None
      end
    ∧ EvGetResult ∉ drop (length (trace w)) (trace w').
Proof.
  intros Hi Hnode adapter.
  destruct (_get_exec_node_frame _ _ _ Hnode)
    as [(_ & _ & Hconn & Htrace & _ & Hconfig & _) _].
  assert (Hlen : ∀ new : list Event,
             drop (length (trace w)) (trace w ++ new) = new).
  { intros new. by rewrite drop_app_length. }
  destruct (get_runner (config (self w1)) node) as [e|runner] eqn:Hrunner.
  { set (w4 := died node e (waiting node (with_thread None w1))).
    assert (Hadapter : get_adapter (config (self w4)) = adapter).
    { simpl. by rewrite Hconfig. }
    assert (Htry : handle_request_try env (with_thread None w)
                   = (w4, Raise KeyboardInterrupt)).
    { rewrite (try_worker_died env _ (with_thread None w1) node e);
        [|by left| |done].
      - rewrite Hi. done.
      - rewrite _get_exec_node_with_thread. by rewrite Hnode. }
    destruct (is_cancelable adapter) eqn:Hcancel.
    - eexists. split.
      { eapply handle_request_interrupted; [exact Htry|].
        eapply on_KeyboardInterrupt_joins_done;
          [by rewrite Hadapter|done..]. }
      rewrite Hadapter. simpl.
      split; [done|]. split; [done|].
      rewrite Htrace, <- !app_assoc, Hlen. simpl.
      late_trace.
    - eexists. split.
      { eapply handle_request_interrupted; [exact Htry|].
        apply on_KeyboardInterrupt_not_cancelable. by rewrite Hadapter. }
      rewrite Hadapter. simpl.
      split; [done|]. split; [done|].
      rewrite Htrace, <- !app_assoc, Hlen. simpl.
      late_trace. }
  destruct (_in_thread_returns node (waiting node (with_thread None w1))
              runner Hrunner)
    as (w3 & Hworker & Hdone & _ & _ & _ & Hcase).
  simpl in Hcase.
  set (w4 := with_thread
               (Some {| thread_node := node; phase := Done;
                        joined := false |}) w3).
  assert (Hadapter : get_adapter (config (self w4)) = adapter).
  { simpl. destruct (safe_run _ _ _); destruct Hcase as [-> _]; simpl;
      by rewrite Hconfig. }
  assert (Htry : handle_request_try env (with_thread None w)
                 = (w4, Raise KeyboardInterrupt)).
  { rewrite (try_worker_done env _ (with_thread None w1) w3 node);
      [|by left| |done].
    - rewrite Hi. done.
    - rewrite _get_exec_node_with_thread. by rewrite Hnode. }
  destruct (is_cancelable adapter) eqn:Hcancel.
  - eexists. split.
    { eapply handle_request_interrupted; [exact Htry|].
      eapply on_KeyboardInterrupt_joins_done;
        [by rewrite Hadapter|done..]. }
    rewrite Hadapter. simpl. rewrite Hdone.
    split; [done|].
    destruct (safe_run _ _ _) as [exc|r]; destruct Hcase as [Hself Htr];
      rewrite Hself, Htr; simpl; rewrite Htrace, <- !app_assoc, Hlen;
      (split; [done|]); simpl; late_trace.
  - eexists. split.
    { eapply handle_request_interrupted; [exact Htry|].
      apply on_KeyboardInterrupt_not_cancelable. by rewrite Hadapter. }
    rewrite Hadapter. simpl. rewrite Hdone.
    split; [done|].
    destruct (safe_run _ _ _) as [exc|r]; destruct Hcase as [Hself Htr];
      rewrite Hself, Htr; simpl; rewrite Htrace, <- !app_assoc, Hlen;
      (split; [done|]); simpl; late_trace.
Qed.

End Outcomes.

(** ** What the context builder writes, and when *)

Section ContextWrites.
Context `{Collaborators}.
Variable env : Env.

(** The steps of [_get_exec_node] after the update of the baseline
    collection: each of them leaves that collection as the update made
    it. *)
Local Ltac after_update Hrun :=
  destruct (RPCCallParser_parse_remote _ _ _ _ _ _); simpl in Hrun;
  [ simplify_eq; simpl; unfold dict_update; apply lookup_insert_eq
  | destruct (resolve_refs _ _ _); simpl in Hrun;
    [ simplify_eq; simpl; rewrite lookup_insert_ne by done;
      unfold dict_update; apply lookup_insert_eq
    | destruct (compile_manifest _ _); simpl in Hrun; simplify_eq; simpl;
      (rewrite lookup_insert_ne by done);
      unfold dict_update; apply lookup_insert_eq ] ].

(** The baseline macro collection after [_get_exec_node], whatever its
    outcome: untouched with the whole heap when the builder raised before
    the update, and updated with the request's definitions otherwise. *)
Lemma _get_exec_node_baseline (w w' : World) (r : Outcome ParsedNode.t) :
  _get_exec_node w = (w', r) →
  let base := Manifest.macros (_base_manifest (self w)) in
  (heap w' = heap w ∧ ∃ exc, r = Raise (Exception exc))
  ∨ ∃ overrides : MacroDict,
      request_overrides (self w) = inr overrides
      ∧ heap w' !! base
        = Some (overrides ∪ default ∅ (heap w !! base)).
Proof.
  intros Hrun base.
  unfold _get_exec_node, add_new_refs, bind, lift, get, modify, raise, ret
    in Hrun.
  unfold request_overrides, parse_request_macros, bindE.
  simpl in Hrun.
  destruct (_extract_request_data (a_sql (args (self w))))
    as [e|[sql macros]]; [left; simplify_eq; by eauto|].
  simpl in Hrun.
  assert (Hfresh : ∀ ov : MacroDict,
             fresh (dom (dict_update base ov (heap w))) ≠ base).
  { intros ov Heq.
    pose proof (is_fresh (dom (dict_update base ov (heap w)))) as Hnew.
    apply Hnew. rewrite Heq at 1. unfold dict_update.
    rewrite dom_insert_L. set_solver. }
  destruct (Py.truthy macros).
  - destruct (RPCMacroParser_parse_remote ParseResult_rpc
                (config (self w)) macros) as [e|[parsed results]];
      simpl in Hrun; [left; simplify_eq; by eauto|].
    right. exists (collect_overrides parsed ∅). split; [done|].
    specialize (Hfresh (collect_overrides parsed ∅)).
    after_update Hrun.
  - right. exists ∅. split; [done|]. specialize (Hfresh ∅).
    after_update Hrun.
Qed.

(** X7.  A syntax error in a macro block of the request fails the request
    with that error before anything is written: the heap (the baseline
    macro collection with it), the task and the trace are as they were,
    and no thread is bound. *)
Theorem macro_syntax_error_changes_nothing
    (w : World) (sql macros : string) (exc : Exc) :
  interrupt env ≠ BeforeParsing →
  _extract_request_data (a_sql (args (self w))) = inr (sql, macros) →
  Py.truthy macros = true →
  RPCMacroParser_parse_remote ParseResult_rpc (config (self w)) macros
  = inl exc →
  ∃ w',
    handle_request env w = (w', Raise (Exception exc))
    ∧ heap w' = heap w
    ∧ self w' = self w
    ∧ trace w' = trace w
    ∧ thread w' = None.
Proof.
  intros Hi Hsplit Htruthy Hparse.
  exists (with_thread None w). split; [|done].
  apply handle_request_context_failure; [done|].
  by eapply macro_syntax_error_raises.
Qed.

(** X8.  A syntax error in the statement of the request is raised after
    the update of the baseline: the request fails with that error, and
    the macro definitions it brought are in the baseline macro collection
    all the same.  Nothing else is written: the task, with [manifest] and
    [linker], and the trace are as they were. *)
Theorem statement_syntax_error_leaves_macros_in_baseline
    (w : World) (sql : string) (overrides : MacroDict)
    (results : ParseResult) (exc : Exc) :
  let base := Manifest.macros (_base_manifest (self w)) in
  interrupt env ≠ BeforeParsing →
  parse_request_macros (self w) = inr (sql, overrides, results) →
  RPCCallParser_parse_remote results (config (self w)) (config (self w))
    (deref (dict_update base overrides (heap w)) (_base_manifest (self w)))
    sql (a_name (args (self w))) = inl exc →
  ∃ w',
    handle_request env w = (w', Raise (Exception exc))
    ∧ heap w' !! base = Some (overrides ∪ default ∅ (heap w !! base))
    ∧ (∀ l, l ≠ base → heap w' !! l = heap w !! l)
    ∧ self w' = self w
    ∧ trace w' = trace w
    ∧ thread w' = None.
Proof.
  intros base Hi Hstage Hparse.
  eexists. split.
  { apply handle_request_context_failure; [done|].
    by eapply statement_syntax_error_raises. }
  simpl. unfold dict_update. fold base.
  split; [apply lookup_insert_eq|]. split; [|done].
  intros l Hl. by rewrite lookup_insert_ne.
Qed.

(** X9.  When a request defines macros with the same [unique_id] more
    than once, the last definition in source order is the one kept; a key
    that no definition of the request has keeps its earlier entry. *)
Theorem last_definition_of_a_macro_wins
    (parsed : list ParsedMacro.t) (acc : MacroDict) (k : string) :
  collect_overrides parsed acc !! k
  = match last (List.filter
                  (λ m, bool_decide (ParsedMacro.unique_id m = k)) parsed) with
    | Some m => Some m
    | None => acc !! k
    end.
Proof.
  induction parsed as [|m parsed IH] using rev_ind; [done|].
  unfold collect_overrides in *. rewrite fold_left_app, List.filter_app.
  simpl. case_bool_decide as Hk.
  - rewrite last_snoc. subst k. apply lookup_insert_eq.
  - rewrite app_nil_r, lookup_insert_ne by done. apply IH.
Qed.

(** X10.  [self.linker] is written only when [_get_exec_node] returns,
    and then it is the compilation of the graph that [self.manifest] holds
    at that moment.  When [_get_exec_node] raises, the linker is the one
    from before; [self.manifest] has changed only if it was the
    compilation that failed. *)
Theorem linker_is_compiled_from_the_request_graph
    (w w' : World) (r : Outcome ParsedNode.t) :
  _get_exec_node w = (w', r) →
  match r with
  | Ret node =>
      ∃ lk, linker (self w') = Some lk
        ∧ compile_manifest (config (self w'))
            (deref (heap w') (manifest (self w'))) = inr lk
  | _ =>
      linker (self w') = linker (self w)
      ∧ (manifest (self w') ≠ manifest (self w) →
         ∃ exc, r = Raise (Exception exc)
           ∧ compile_manifest (config (self w'))
               (deref (heap w') (manifest (self w'))) = inl exc)
  end.
Proof.
  unfold _get_exec_node, add_new_refs, bind, lift, get, modify, raise, ret.
  simpl. intros Hrun.
  destruct (_extract_request_data (a_sql (args (self w))))
    as [e|[sql macros]]; [by simplify_eq|].
  simpl in Hrun.
  destruct (Py.truthy macros).
  - destruct (RPCMacroParser_parse_remote _ _ _) as [e|[parsed results]];
      simpl in Hrun; [by simplify_eq|].
    destruct (RPCCallParser_parse_remote _ _ _ _ _ _) as [e|node];
      simpl in Hrun; [by simplify_eq|].
    destruct (resolve_refs _ _ _); simpl in Hrun; [by simplify_eq|].
    destruct (compile_manifest _ _) as [e|lk] eqn:Hcompile; simpl in Hrun;
      simplify_eq; simpl; by eauto.
  - destruct (RPCCallParser_parse_remote _ _ _ _ _ _) as [e|node];
      simpl in Hrun; [by simplify_eq|].
    destruct (resolve_refs _ _ _); simpl in Hrun; [by simplify_eq|].
    destruct (compile_manifest _ _) as [e|lk] eqn:Hcompile; simpl in Hrun;
      simplify_eq; simpl; by eauto.
Qed.

(** X11.  Two requests served one after the other on the same baseline
    graph: after the second, the baseline macro collection holds the
    definitions of both on top of what it held at first, the second
    request's definitions winning over the first's.  A macro that only
    the first request defined is still there. *)
Theorem baseline_accumulates_across_requests
    (w1 w1' w2 w2' : World) (n1 n2 : ParsedNode.t) :
  let base := Manifest.macros (_base_manifest (self w1)) in
  _get_exec_node w1 = (w1', Ret n1) →
  heap w2 = heap w1' →
  _base_manifest (self w2) = _base_manifest (self w1) →
  _get_exec_node w2 = (w2', Ret n2) →
  ∃ first second : MacroDict,
    request_overrides (self w1) = inr first
    ∧ request_overrides (self w2) = inr second
    ∧ heap w2' !! base
      = Some (second ∪ (first ∪ default ∅ (heap w1 !! base)))
    ∧ ∀ k m, first !! k = Some m → second !! k = None →
        heap w2' !! base ≫= (.!! k) = Some m.
Proof.
  intros base Hfirst Hheap Hbase Hsecond.
  destruct (_get_exec_node_baseline _ _ _ Hfirst)
    as [(_ & exc & ?)|(first & Hov1 & Hh1)]; [done|].
  destruct (_get_exec_node_baseline _ _ _ Hsecond)
    as [(_ & exc & ?)|(second & Hov2 & Hh2)]; [done|].
  rewrite Hbase, Hheap in Hh2. fold base in Hh1, Hh2.
  rewrite Hh1 in Hh2. simpl in Hh2.
  exists first, second. repeat split; try done.
  intros k m Hk1 Hk2. rewrite Hh2. simpl.
  rewrite lookup_union_r by done. by apply lookup_union_Some_l.
Qed.

(** X12.  [_get_exec_node] never removes a macro from the baseline
    collection, whatever its outcome: a key that the collection had
    before it still has afterwards, with its earlier definition unless
    the request redefines it. *)
Theorem baseline_never_loses_a_macro
    (w w' : World) (r : Outcome ParsedNode.t)
    (before : MacroDict) (k : string) (m : ParsedMacro.t) :
  let base := Manifest.macros (_base_manifest (self w)) in
  _get_exec_node w = (w', r) →
  heap w !! base = Some before →
  before !! k = Some m →
  ∃ after : MacroDict,
    heap w' !! base = Some after
    ∧ is_Some (after !! k)
    ∧ (∀ overrides, request_overrides (self w) = inr overrides →
       overrides !! k = None → after !! k = Some m).
Proof.
  intros base Hrun Hbefore Hk.
  destruct (_get_exec_node_baseline _ _ _ Hrun)
    as [(Hheap & _)|(overrides & Hov & Hafter)].
  - exists before. rewrite Hheap. by eauto.
  - fold base in Hafter. rewrite Hbefore in Hafter. simpl in Hafter.
    exists (overrides ∪ before). split; [done|]. split.
    + destruct (overrides !! k) as [m'|] eqn:Hm'.
      * exists m'. by apply lookup_union_Some_l.
      * exists m. by rewrite lookup_union_r.
    + intros overrides' Hov' Hnone. rewrite Hov in Hov'. simplify_eq.
      by rewrite lookup_union_r.
Qed.

End ContextWrites.

(** ** The splitter, character by character *)

Lemma string_length_app (a b : string) :
  String.length (a +:+ b) = String.length a + String.length b.
Proof.
  induction a as [|c a IH]; [done|].
  change (S (String.length (a +:+ b)) = S (String.length a + String.length b)).
  by rewrite IH.
Qed.

Lemma join_length (sep : string) (l : list string) :
  String.length (Py.join sep l)
  = sum_list_with String.length l + String.length sep * pred (length l).
Proof.
  induction l as [|x l IH]; [simpl; lia|].
  destruct l as [|y l].
  - simpl. lia.
  - change (Py.join sep (x :: y :: l))
      with (x +:+ sep +:+ Py.join sep (y :: l)).
    rewrite !string_length_app, IH. simpl. lia.
Qed.

Lemma block_lengths_split (blocks : list Block) :
  sum_list_with String.length (statement_texts blocks)
  + sum_list_with String.length (macro_texts blocks)
  = sum_list_with (λ b, String.length (full_block b)) blocks.
Proof.
  unfold statement_texts, macro_texts.
  induction blocks as [|b blocks IH]; [done|].
  simpl. destruct (is_macro_block b); simpl; lia.
Qed.

Section SplitterFacts.
Context `{Collaborators}.

(** X13.  The splitter loses and invents no text: the statement text and
    the macros text together have the characters of all top-level blocks,
    plus one newline between each two macro blocks. *)
Theorem extract_request_data_keeps_every_character
    (data decoded : string) (blocks : list Block) :
  decode_sql data = inr decoded →
  extract_toplevel_blocks decoded = inr blocks →
  ∃ sql macros,
    _extract_request_data data = inr (sql, macros)
    ∧ String.length sql + String.length macros
      = sum_list_with (λ b, String.length (full_block b)) blocks
        + pred (length (macro_texts blocks)).
Proof.
  intros Hdecode Hlex.
  exists (Py.join "" (statement_texts blocks)),
         (Py.join Py.newline (macro_texts blocks)).
  split.
  - unfold _extract_request_data. rewrite Hdecode. simpl.
    rewrite Hlex. simpl. by rewrite fold_split_block.
  - rewrite !join_length, <- block_lengths_split. simpl. lia.
Qed.

(** The splitter raises nothing of its own: it fails exactly when
    decoding the request text fails or when lexing the decoded text
    fails, and then with that very error. *)
Theorem extract_request_data_fails_only_with_its_collaborators
    (data : string) (e : Exc) :
  _extract_request_data data = inl e
  ↔ decode_sql data = inl e
    ∨ ∃ decoded, decode_sql data = inr decoded
        ∧ extract_toplevel_blocks decoded = inl e.
Proof.
  unfold _extract_request_data, bindE.
  destruct (decode_sql data) as [e'|decoded].
  - split; [intros [= ->]; by left|].
    intros [[= ->]|(? & ? & _)]; done.
  - destruct (extract_toplevel_blocks decoded) as [e'|blocks] eqn:Hlex.
    + split.
      * intros [= ->]. right. by exists decoded.
      * intros [?|(d & [= <-] & Hd)]; [done|]. congruence.
    + destruct (fold_left split_block blocks ([], [])) as [ms ds].
      split; [done|].
      intros [?|(d & [= <-] & Hd)]; [done|]. congruence.
Qed.

End SplitterFacts.

(** ** The registry, whatever the order of the enumeration *)

Lemma same_method_name_same_class (l : list HandlerClass)
    (c c' : HandlerClass) :
  NoDup (METHOD_NAME <$> l) →
  c ∈ l → c' ∈ l → METHOD_NAME c = METHOD_NAME c' → c = c'.
Proof.
  intros Hunique Hc Hc' Hname.
  apply list_elem_of_lookup in Hc as [i Hi].
  apply list_elem_of_lookup in Hc' as [j Hj].
  assert (i = j) as ->; [|congruence].
  eapply NoDup_lookup; [exact Hunique| |]; rewrite list_lookup_fmap.
  - rewrite Hi. simpl. reflexivity.
  - rewrite Hj. simpl. congruence.
Qed.

Lemma first_match_Permutation (l l' : list HandlerClass)
    (method : option string) :
  l ≡ₚ l' →
  NoDup (METHOD_NAME <$> l) →
  RemoteRPCParameters.first_match l method
  = RemoteRPCParameters.first_match l' method.
Proof.
  intros Hperm Hunique.
  destruct (RemoteRPCParameters.first_match l method) as [c|] eqn:Hl;
    destruct (RemoteRPCParameters.first_match l' method) as [c'|] eqn:Hl';
    [|exfalso..|done].
  - apply first_match_Some in Hl as [Hc Hname].
    apply first_match_Some in Hl' as [Hc' Hname'].
    f_equal. apply (same_method_name_same_class l); try done.
    + by rewrite Hperm.
    + congruence.
  - apply first_match_Some in Hl as [Hc Hname].
    eapply first_match_None in Hl'; [done|]. by rewrite <- Hperm.
  - apply first_match_Some in Hl' as [Hc' Hname'].
    eapply first_match_None in Hl; [done|]. by rewrite Hperm.
Qed.

Lemma first_match_own_name (l : list HandlerClass) (c : HandlerClass) :
  NoDup (METHOD_NAME <$> l) →
  c ∈ l →
  RemoteRPCParameters.first_match l (METHOD_NAME c) = Some c.
Proof.
  intros Hunique Hc.
  destruct (RemoteRPCParameters.first_match l (METHOD_NAME c))
    as [c'|] eqn:Hfirst.
  - apply first_match_Some in Hfirst as [Hc' Hname].
    f_equal. by apply (same_method_name_same_class l).
  - exfalso. eapply first_match_None in Hfirst; [|exact Hc]. done.
Qed.

Section RegistryFacts.
Context {Config ManifestT Result : Type}.
Variable shlex_split : string → Exc + list string.
Variable parse_args : list string → Exc + Namespace.
Variable recursive_subclasses : list HandlerClass.
Variable task_handle_request :
  TaskInstance Config ManifestT → Exc + Result.

(** X14.  When the enumerated handler types declare pairwise different
    method names, the order in which they are enumerated does not matter:
    [get_rpc_task_cls] returns the same type, or raises the same error,
    for every rearrangement of the enumeration. *)
Theorem get_rpc_task_cls_ignores_enumeration_order
    (rearranged : list HandlerClass) (self : TaskInstance Config ManifestT) :
  recursive_subclasses ≡ₚ rearranged →
  NoDup (METHOD_NAME <$> recursive_subclasses) →
  RemoteRPCParameters.get_rpc_task_cls recursive_subclasses self
  = RemoteRPCParameters.get_rpc_task_cls rearranged self.
Proof.
  intros Hperm Hunique. unfold RemoteRPCParameters.get_rpc_task_cls.
  by rewrite (first_match_Permutation _ rearranged _ Hperm Hunique).
Qed.

(** X15.  The eight method names that [remote.py] declares are pairwise
    different, so among its handler types, enumerated in any order, every
    declared name resolves to the type that declares it. *)
Theorem remote_py_method_names_resolve_to_their_class
    (enumeration : list HandlerClass) (c : HandlerClass)
    (self : TaskInstance Config ManifestT) :
  enumeration ≡ₚ named_handlers →
  c ∈ named_handlers →
  rpc_method (task_args self) = METHOD_NAME c →
  NoDup (METHOD_NAME <$> named_handlers)
  ∧ RemoteRPCParameters.get_rpc_task_cls enumeration self = inr c.
Proof.
  intros Hperm Hc Hname.
  assert (Hunique : NoDup (METHOD_NAME <$> named_handlers))
    by compute_done.
  split; [done|].
  unfold RemoteRPCParameters.get_rpc_task_cls.
  rewrite (first_match_Permutation enumeration named_handlers _ Hperm).
  - by rewrite Hname, first_match_own_name.
  - by rewrite Hperm.
Qed.

(** X16.  A [cli_args] request fails before any handler runs when its
    command line does not lex, when the lexed arguments do not parse, or
    when the parsed method has no handler type: with the lexer's error,
    the parser's error, and an [InternalException] respectively. *)
Theorem cli_request_fails_before_dispatch
    (params : RPCCliParameters) (self : TaskInstance Config ManifestT) :
  (∀ e, shlex_split (cli params) = inl e →
        RemoteRPCParameters.request shlex_split parse_args
          recursive_subclasses task_handle_request params self = inl e)
  ∧ (∀ split e,
        shlex_split (cli params) = inr split →
        parse_args split = inl e →
        RemoteRPCParameters.request shlex_split parse_args
          recursive_subclasses task_handle_request params self = inl e)
  ∧ (∀ split parsed,
        shlex_split (cli params) = inr split →
        parse_args split = inr parsed →
        (∀ c, c ∈ recursive_subclasses →
              METHOD_NAME c ≠ rpc_method parsed) →
        RemoteRPCParameters.request shlex_split parse_args
          recursive_subclasses task_handle_request params self
        = inl (InternalException
                 ("No matching handler found for rpc method "
                  +:+ Py.str (rpc_method parsed)
                  +:+ " (which=" +:+ Py.str (which parsed) +:+ ")"))).
Proof.
  unfold RemoteRPCParameters.request, RemoteRPCParameters.set_args,
    RemoteRPCParameters.handle_request,
    RemoteRPCParameters.get_rpc_task_cls, bindE.
  split; [|split].
  - by intros e ->.
  - by intros split e -> ->.
  - intros split parsed -> -> Hnone. simpl.
    apply first_match_None in Hnone. by rewrite Hnone.
Qed.

End RegistryFacts.

(** * Concrete runs *)

#[local] Existing Instance Demo.collaborators.

(** ** The splitter on macro blocks interleaved with statement text *)

Lemma extract_request_data_partition_witness :
  @_extract_request_data Demo.collaborators
    "select 1{% macro one() %}1{% endmacro %} from {% macro two() %}2{% endmacro %}x"
  = inr ("select 1 from x",
         "{% macro one() %}1{% endmacro %}" +:+ Py.newline
         +:+ "{% macro two() %}2{% endmacro %}").
Proof.
  exact (proj1 (extract_request_data_partition
     "select 1{% macro one() %}1{% endmacro %} from {% macro two() %}2{% endmacro %}x"
     "select 1{% macro one() %}1{% endmacro %} from {% macro two() %}2{% endmacro %}x"
     [ Demo.data_block "select 1";
       {| block_type_name := "macro";
          full_block := "{% macro one() %}1{% endmacro %}" |};
       Demo.data_block " from ";
       {| block_type_name := "macro";
          full_block := "{% macro two() %}2{% endmacro %}" |};
       Demo.data_block "x" ]
     eq_refl eq_refl)).
Defined.

(** ** A request with a macro block, served on the baseline graph *)

(** C1, as stated, fails: the baseline macro collection (address 0, empty
    before the first request) holds the request's macro [one] once
    [_get_exec_node] has run, and the graph that the second request, one
    without macros, builds from the baseline holds it as well.  A request
    whose statement does not parse leaves its macro in the baseline
    collection too. *)
Lemma baseline_macro_collection_is_mutated :
  Manifest.macros (_base_manifest (self Demo.first_request)) = 0
  ∧ heap Demo.first_request !! 0 = Some ∅
  ∧ (_get_exec_node Demo.first_request).2
    = Ret (Demo.node Demo.with_macro "select {{ one() }} as id")
  ∧ heap Demo.after_first !! 0
    = Some {[ "macro.shop.one" := Demo.macro_one ]}
  ∧ heap Demo.after_first !! 0 ≠ heap Demo.first_request !! 0
  ∧ md_macros (deref (heap Demo.after_second)
                     (manifest (self Demo.after_second)))
    = {[ "macro.shop.one" := Demo.macro_one ]}
  ∧ (_get_exec_node
       (Demo.world Demo.postgres Demo.macro_then_broken_statement)).2
    = Raise (Exception (CompilationException "unexpected end of template"))
  ∧ heap (_get_exec_node
            (Demo.world Demo.postgres Demo.macro_then_broken_statement)).1
    !! 0
    = Some {[ "macro.shop.one" := Demo.macro_one ]}.
Proof.
  assert (Hbase : heap Demo.after_first !! 0
                  = Some {[ "macro.shop.one" := Demo.macro_one ]})
    by (vm_compute; reflexivity).
  split; [|split; [|split; [|split; [|split; [|split; [|split]]]]]].
  - reflexivity.
  - reflexivity.
  - vm_compute. reflexivity.
  - exact Hbase.
  - rewrite Hbase. intros Heq.
    apply (f_equal (λ o, o ≫= (.!! "macro.shop.one"))) in Heq.
    vm_compute in Heq. discriminate.
  - vm_compute. reflexivity.
  - vm_compute. reflexivity.
  - vm_compute. reflexivity.
Qed.

Lemma get_exec_node_updates_baseline_in_place_witness :
  ∃ overrides : MacroDict,
    request_overrides (Demo.task Demo.postgres Demo.with_macro)
    = inr overrides
    ∧ heap Demo.after_first !! 0 = Some (overrides ∪ ∅)
    ∧ md_macros (deref (heap Demo.second_request)
                       (_base_manifest (self Demo.second_request)))
      = overrides ∪ ∅.
Proof.
  destruct (get_exec_node_updates_baseline_in_place
              Demo.first_request Demo.after_first
              (Demo.node Demo.with_macro "select {{ one() }} as id"))
    as (sql & overrides & results & _ & Hov & _ & Hbase & _ & _ & _ & _ & _
        & Hlater).
  - vm_compute. reflexivity.
  - exists overrides. split; [exact Hov|]. split; [exact Hbase|].
    exact (proj1 (Hlater Demo.second_request eq_refl eq_refl)).
Defined.

(** ** Interrupts while the worker runs *)

Lemma interrupt_with_cancelable_adapter_witness :
  is_cancelable (get_adapter (config (self Demo.first_request))) = true
  ∧ ∃ w' : World,
      handle_request (Demo.env WorkerRunning) Demo.first_request
      = (w', Raise (Exception (RPCKilledException SIGINT)))
      ∧ thread w'
        = Some {| thread_node :=
                    Demo.node Demo.with_macro "select {{ one() }} as id";
                  phase := Done; joined := true |}.
Proof.
  split; [reflexivity|].
  destruct (interrupt_with_cancelable_adapter
              (Demo.env WorkerRunning) Demo.first_request Demo.after_first
              (Demo.node Demo.with_macro "select {{ one() }} as id"))
    as (w' & events & Hrun & _ & _ & Hthread & _).
  - reflexivity.
  - vm_compute. reflexivity.
  - reflexivity.
  - exists w'. split; [exact Hrun|exact Hthread].
Defined.

Lemma interrupt_with_non_cancelable_adapter_witness :
  is_cancelable
    (get_adapter (config (self (Demo.world Demo.bigquery Demo.select_1))))
  = false
  ∧ ∃ w' : World,
      handle_request (Demo.env WorkerRunning)
                     (Demo.world Demo.bigquery Demo.select_1)
      = (w', Raise (Exception (RPCKilledException SIGINT)))
      ∧ thread w'
        = Some {| thread_node := Demo.node Demo.select_1 "select 1 as id";
                  phase := Alive; joined := false |}.
Proof.
  split; [reflexivity|].
  destruct (interrupt_with_non_cancelable_adapter
              (Demo.env WorkerRunning)
              (Demo.world Demo.bigquery Demo.select_1)
              (_get_exec_node (Demo.world Demo.bigquery Demo.select_1)).1
              (Demo.node Demo.select_1 "select 1 as id"))
    as (w' & Hrun & _ & Hthread & _).
  - reflexivity.
  - vm_compute. reflexivity.
  - reflexivity.
  - exists w'. split; [exact Hrun|exact Hthread].
Defined.

(** An interrupt between [Thread(...)] and [thread.start()], with an
    adapter that can cancel: [thread] is bound, so the handler joins a
    thread that was never started, and the [RuntimeError] of the join
    replaces the killed error. *)
Example interrupt_before_start_fails_the_join :
  (handle_request (Demo.env BeforeStart)
                  (Demo.world Demo.postgres Demo.select_1)).2
  = Raise (Exception (PyException "RuntimeError"
                        "cannot join thread before it is started")).
Proof. vm_compute. reflexivity. Qed.

(** ** A worker that fails, and a context that cannot be built *)

(** C4, as stated, fails: [get_runner] is called in the worker before
    its [try] block.  For a request with an empty statement the demo's
    [get_runner] raises: the exception leaves the worker, nothing is
    stored in [_raise_next_tick], the event is never set, and the
    coordinating thread, which no interrupt reaches, waits for ever. *)
Lemma get_runner_exception_leaves_the_worker :
  (_get_exec_node (Demo.world Demo.postgres Demo.empty)).2
  = Ret (Demo.node Demo.empty "")
  ∧ (_in_thread (Demo.node Demo.empty "")
       (Demo.world Demo.postgres Demo.empty)).2
    = Raise (Exception (RuntimeException "nothing to run"))
  ∧ thread_done (_in_thread (Demo.node Demo.empty "")
                   (Demo.world Demo.postgres Demo.empty)).1
    = false
  ∧ (handle_request (Demo.env NoInterrupt)
                    (Demo.world Demo.postgres Demo.empty)).2
    = Blocked
  ∧ trace (handle_request (Demo.env NoInterrupt)
                          (Demo.world Demo.postgres Demo.empty)).1
    = [EvThreadStart;
       EvWorkerDied (Exception (RuntimeException "nothing to run"))]
  ∧ thread_done (handle_request (Demo.env NoInterrupt)
                                (Demo.world Demo.postgres Demo.empty)).1
    = false
  ∧ _raise_next_tick
      (self (handle_request (Demo.env NoInterrupt)
                            (Demo.world Demo.postgres Demo.empty)).1)
    = None.
Proof.
  split; [|split; [|split; [|split; [|split; [|split]]]]];
    vm_compute; reflexivity.
Qed.

Lemma worker_exception_is_stored_and_reraised_witness :
  ∃ w' : World,
    handle_request (Demo.env NoInterrupt)
                   (Demo.world Demo.postgres Demo.failing)
    = (w', Raise (Exception (PyException "ValueError" "boom")))
    ∧ _raise_next_tick (self w') = Some (PyException "ValueError" "boom")
    ∧ thread_done w' = true.
Proof.
  destruct (proj2 (worker_exception_is_stored_and_reraised
                     (Demo.env NoInterrupt))
              (Demo.world Demo.postgres Demo.failing)
              (_get_exec_node (Demo.world Demo.postgres Demo.failing)).1
              (Demo.node Demo.failing "select boom")
              (Demo.node Demo.failing "select boom")
              (PyException "ValueError" "boom"))
    as (w' & Hrun & Hslot & Hdone & _).
  - reflexivity.
  - vm_compute. reflexivity.
  - vm_compute. reflexivity.
  - vm_compute. reflexivity.
  - exists w'. split; [exact Hrun|]. split; [exact Hslot|exact Hdone].
Defined.

Lemma context_failure_aborts_before_spawn_witness :
  ∃ w' : World,
    handle_request (Demo.env NoInterrupt)
                   (Demo.world Demo.postgres Demo.unresolved)
    = (w', Raise (Exception
                    (CompilationException
                       "depends on a node named 'customers' which was not found")))
    ∧ thread w' = None
    ∧ trace w' = [].
Proof.
  apply (context_failure_aborts_before_spawn
           (Demo.env NoInterrupt)
           (Demo.world Demo.postgres Demo.unresolved)
           (_get_exec_node (Demo.world Demo.postgres Demo.unresolved)).1).
  - discriminate.
  - vm_compute. reflexivity.
Defined.

(** A macro block without a parameter list is a parse error of the macro
    parser, and [_get_exec_node] raises it. *)
Example broken_macro_is_a_parse_error :
  (_get_exec_node (Demo.world Demo.postgres Demo.broken_macro)).2
  = Raise (Exception (CompilationException "macro without a parameter list")).
Proof. vm_compute. reflexivity. Qed.

(** ** The success path *)

(** C9, as stated, fails: the response of a served request is returned
    with the worker never joined ([joined] is false, no [EvJoin] in the
    trace), and a request whose context cannot be built starts no worker
    at all. *)
Lemma response_returned_with_worker_unjoined :
  (handle_request (Demo.env NoInterrupt)
                  (Demo.world Demo.postgres Demo.select_1)).2
  = Ret (["ok rpc.shop.q1"], 3500, 4500)%Z
  ∧ thread (handle_request (Demo.env NoInterrupt)
                           (Demo.world Demo.postgres Demo.select_1)).1
    = Some {| thread_node := Demo.node Demo.select_1 "select 1 as id";
              phase := Done; joined := false |}
  ∧ trace (handle_request (Demo.env NoInterrupt)
                          (Demo.world Demo.postgres Demo.select_1)).1
    = [EvThreadStart; EvSafeRun; EvDoneSet; EvWaitReturned; EvGetResult]
  ∧ (handle_request (Demo.env NoInterrupt)
                    (Demo.world Demo.postgres Demo.unresolved)).2
    = Raise (Exception
               (CompilationException
                  "depends on a node named 'customers' which was not found"))
  ∧ spawns (trace (handle_request (Demo.env NoInterrupt)
                     (Demo.world Demo.postgres Demo.unresolved)).1) = 0.
Proof.
  split; [|split; [|split; [|split]]]; vm_compute; reflexivity.
Qed.

Lemma one_worker_and_response_after_completion_signal_witness :
  (∃ new,
      trace (handle_request (Demo.env NoInterrupt)
                            (Demo.world Demo.postgres Demo.failing)).1
      = [] ++ new
      ∧ spawns new = 1)
  ∧ ∃ w' : World,
      handle_request (Demo.env NoInterrupt)
                     (Demo.world Demo.postgres Demo.select_1)
      = (w', Ret (["ok rpc.shop.q1"], 3500, 4500)%Z)
      ∧ trace w' = [EvThreadStart; EvSafeRun; EvDoneSet;
                    EvWaitReturned; EvGetResult]
      ∧ thread_done w' = true.
Proof.
  destruct (one_worker_and_response_after_completion_signal
              (Demo.env NoInterrupt))
    as (_ & Hone & _ & Hserved).
  split.
  - apply (Hone (Demo.world Demo.postgres Demo.failing)
                (_get_exec_node (Demo.world Demo.postgres Demo.failing)).1
                (Demo.node Demo.failing "select boom")).
    + reflexivity.
    + vm_compute. reflexivity.
  - destruct (Hserved
                (Demo.world Demo.postgres Demo.select_1)
                (_get_exec_node (Demo.world Demo.postgres Demo.select_1)).1
                (Demo.node Demo.select_1 "select 1 as id")
                (Demo.node Demo.select_1 "select 1 as id")
                "ok rpc.shop.q1")
      as (w' & Hrun & Htrace & Hdone & _).
    + reflexivity.
    + vm_compute. reflexivity.
    + vm_compute. reflexivity.
    + vm_compute. reflexivity.
    + exists w'. split; [exact Hrun|]. split; [exact Htrace|exact Hdone].
Defined.

(** ** The [macros] parameter *)

Lemma macros_parameter_is_ignored_witness :
  (handle_request (Demo.env NoInterrupt)
     (with_self
        (set_args {| p_name := "q1"; p_sql := "select 1 as id";
                     p_macros := Some "{% macro one() %}1{% endmacro %}" |})
        (Demo.world Demo.postgres Demo.select_1))).2
  = (handle_request (Demo.env NoInterrupt)
       (with_self (set_args Demo.select_1)
                  (Demo.world Demo.postgres Demo.select_1))).2.
Proof.
  exact (proj1 (proj2 (proj2 (proj2
    (macros_parameter_is_ignored (Demo.env NoInterrupt)
       (Demo.world Demo.postgres Demo.select_1)
       Demo.select_1
       {| p_name := "q1"; p_sql := "select 1 as id";
          p_macros := Some "{% macro one() %}1{% endmacro %}" |}
       eq_refl eq_refl))))).
Defined.

(** ** The registry *)

Lemma get_rpc_task_cls_resolves_witness :
  (∃ msg,
      RemoteRPCParameters.get_rpc_task_cls named_handlers
        {| task_cls := RemoteRPCParameters;
           task_args := {| rpc_method := Some "debug"; which := Some "debug";
                           models := None; exclude := None |};
           task_config := tt; task_manifest := tt |}
      = inl (InternalException msg))
  ∧ RemoteRPCParameters.get_rpc_task_cls named_handlers
      {| task_cls := RemoteRPCParameters;
         task_args := {| rpc_method := Some "seed"; which := Some "seed";
                         models := None; exclude := None |};
         task_config := tt; task_manifest := tt |}
    = inr RemoteSeedProjectTask.
Proof.
  split.
  - destruct (proj1 (get_rpc_task_cls_resolves named_handlers
              {| task_cls := RemoteRPCParameters;
                 task_args := {| rpc_method := Some "debug";
                                 which := Some "debug";
                                 models := None; exclude := None |};
                 task_config := tt; task_manifest := tt |}))
      as (msg & Hraise & _).
    + intros c Hc. vm_compute in Hc.
      repeat (apply elem_of_cons in Hc as [->|Hc]; [discriminate|]).
      by apply not_elem_of_nil in Hc.
    + by exists msg.
  - destruct (proj2 (get_rpc_task_cls_resolves named_handlers
              {| task_cls := RemoteRPCParameters;
                 task_args := {| rpc_method := Some "seed";
                                 which := Some "seed";
                                 models := None; exclude := None |};
                 task_config := tt; task_manifest := tt |})
              RemoteSeedProjectTask)
      as (c' & Hget & _ & _ & Hsame).
    + compute_done.
    + reflexivity.
    + rewrite Hget. f_equal. apply Hsame. compute_done.
Defined.

Lemma cli_request_delegates_witness :
  RemoteRPCParameters.request Demo.shlex_split Demo.parse_args named_handlers
    Demo.task_handle_request {| cli := "run --models my_model" |}
    Demo.cli_task
  = inr ("RemoteRunProjectTask", Some ["my_model"]).
Proof.
  exact (proj2 (proj2 (proj2
    (cli_request_delegates Demo.shlex_split Demo.parse_args named_handlers
       Demo.task_handle_request {| cli := "run --models my_model" |}
       Demo.cli_task
       ["run"; "--models"; "my_model"]
       {| rpc_method := Some "run"; which := Some "run";
          models := Some ["my_model"]; exclude := None |}
       RemoteRunProjectTask eq_refl eq_refl eq_refl)))).
Defined.

(** ** Runs for the further properties *)

Lemma handle_request_ends_unless_get_runner_raises_witness :
  (handle_request (Demo.env NoInterrupt)
                  (Demo.world Demo.postgres Demo.empty)).2
  = Blocked.
Proof.
  apply (proj2 (handle_request_ends_unless_get_runner_raises
                  (Demo.env NoInterrupt)
                  (Demo.world Demo.postgres Demo.empty))
           (_get_exec_node (Demo.world Demo.postgres Demo.empty)).1
           (Demo.node Demo.empty "")
           (RuntimeException "nothing to run")).
  - reflexivity.
  - vm_compute. reflexivity.
  - vm_compute. reflexivity.
Defined.

Lemma response_comes_from_an_uninterrupted_run_witness :
  ∃ r : string,
    (["ok rpc.shop.q1"], 3500, 4500)%Z
    = get_result [r] (4500 - 1000)%Z 4500%Z
    ∧ trace (handle_request (Demo.env NoInterrupt)
               (Demo.world Demo.postgres Demo.select_1)).1
      = [EvThreadStart; EvSafeRun; EvDoneSet; EvWaitReturned; EvGetResult].
Proof.
  destruct (response_comes_from_an_uninterrupted_run
              (Demo.env NoInterrupt)
              (Demo.world Demo.postgres Demo.select_1)
              (handle_request (Demo.env NoInterrupt)
                 (Demo.world Demo.postgres Demo.select_1)).1
              (["ok rpc.shop.q1"], 3500, 4500)%Z)
    as (_ & w1 & node & runner & r & _ & _ & _ & Hresponse & _ & _ & _
        & Htrace).
  - vm_compute. reflexivity.
  - exists r. split; [exact Hresponse|exact Htrace].
Defined.

Lemma uninterrupted_request_leaves_connections_alone_witness :
  connections_cancelled
    (handle_request (Demo.env NoInterrupt)
       (Demo.world Demo.postgres Demo.failing)).1
  = false.
Proof.
  exact (proj1 (uninterrupted_request_leaves_connections_alone
                  (Demo.env NoInterrupt)
                  (Demo.world Demo.postgres Demo.failing) eq_refl)).
Defined.

Lemma interrupt_without_thread_witness :
  ∃ w' : World,
    handle_request (Demo.env BeforeParsing) Demo.first_request
    = (w', Raise (Exception (RPCKilledException SIGINT)))
    ∧ thread w' = None
    ∧ connections_cancelled w' = true.
Proof.
  destruct (interrupt_without_thread
              (Demo.env BeforeParsing) Demo.first_request
              Demo.first_request
              (Demo.node Demo.with_macro "select {{ one() }} as id"))
    as (w' & Hrun & Hthread & Hconn & _).
  - left. reflexivity.
  - exists w'. split; [exact Hrun|]. split; [exact Hthread|exact Hconn].
Defined.

Lemma interrupt_before_start_witness :
  ∃ w' : World,
    handle_request (Demo.env BeforeStart)
                   (Demo.world Demo.postgres Demo.select_1)
    = (w', Raise (Exception
                    (PyException "RuntimeError"
                       "cannot join thread before it is started")))
    ∧ thread w'
      = Some {| thread_node := Demo.node Demo.select_1 "select 1 as id";
                phase := Unstarted; joined := false |}.
Proof.
  destruct (interrupt_before_start
              (Demo.env BeforeStart)
              (Demo.world Demo.postgres Demo.select_1)
              (_get_exec_node (Demo.world Demo.postgres Demo.select_1)).1
              (Demo.node Demo.select_1 "select 1 as id"))
    as (w' & Hrun & Hthread & _).
  - reflexivity.
  - vm_compute. reflexivity.
  - exists w'. split; [exact Hrun|exact Hthread].
Defined.

Lemma late_interrupt_discards_finished_work_witness :
  ∃ w' : World,
    handle_request (Demo.env WorkerFinished)
                   (Demo.world Demo.bigquery Demo.select_1)
    = (w', Raise (Exception (RPCKilledException SIGINT)))
    ∧ thread w'
      = Some {| thread_node := Demo.node Demo.select_1 "select 1 as id";
                phase := Done; joined := false |}
    ∧ thread_done w' = true.
Proof.
  destruct (late_interrupt_discards_finished_work
              (Demo.env WorkerFinished)
              (Demo.world Demo.bigquery Demo.select_1)
              (_get_exec_node (Demo.world Demo.bigquery Demo.select_1)).1
              (Demo.node Demo.select_1 "select 1 as id"))
    as (w' & Hrun & Hthread & Hworker & _).
  - reflexivity.
  - vm_compute. reflexivity.
  - exists w'. split; [exact Hrun|]. split; [exact Hthread|].
    exact (proj1 Hworker).
Defined.

Lemma macro_syntax_error_changes_nothing_witness :
  ∃ w' : World,
    handle_request (Demo.env NoInterrupt)
                   (Demo.world Demo.postgres Demo.broken_macro)
    = (w', Raise (Exception
                    (CompilationException "macro without a parameter list")))
    ∧ heap w' = heap (Demo.world Demo.postgres Demo.broken_macro).
Proof.
  destruct (macro_syntax_error_changes_nothing
              (Demo.env NoInterrupt)
              (Demo.world Demo.postgres Demo.broken_macro)
              "select 1" "{% macro broken %}1{% endmacro %}"
              (CompilationException "macro without a parameter list"))
    as (w' & Hrun & Hheap & _).
  - discriminate.
  - vm_compute. reflexivity.
  - reflexivity.
  - vm_compute. reflexivity.
  - exists w'. split; [exact Hrun|exact Hheap].
Defined.

Lemma statement_syntax_error_leaves_macros_in_baseline_witness :
  ∃ w' : World,
    handle_request (Demo.env NoInterrupt)
                   (Demo.world Demo.postgres Demo.macro_then_broken_statement)
    = (w', Raise (Exception
                    (CompilationException "unexpected end of template")))
    ∧ heap w' !! 0
      = Some ({[ "macro.shop.one" := Demo.macro_one ]}
              ∪ default ∅
                  (heap (Demo.world Demo.postgres
                           Demo.macro_then_broken_statement) !! 0)).
Proof.
  destruct (statement_syntax_error_leaves_macros_in_baseline
              (Demo.env NoInterrupt)
              (Demo.world Demo.postgres Demo.macro_then_broken_statement)
              "select {{ one("
              {[ "macro.shop.one" := Demo.macro_one ]}
              ["macro.shop.one"]
              (CompilationException "unexpected end of template"))
    as (w' & Hrun & Hbase & _).
  - discriminate.
  - vm_compute. reflexivity.
  - vm_compute. reflexivity.
  - exists w'. split; [exact Hrun|exact Hbase].
Defined.

Lemma linker_is_compiled_from_the_request_graph_witness :
  ∃ lk,
    linker (self Demo.after_first) = Some lk
    ∧ compile_manifest (config (self Demo.after_first))
        (deref (heap Demo.after_first) (manifest (self Demo.after_first)))
      = inr lk.
Proof.
  apply (linker_is_compiled_from_the_request_graph
           Demo.first_request Demo.after_first
           (Ret (Demo.node Demo.with_macro "select {{ one() }} as id"))).
  vm_compute. reflexivity.
Defined.

Lemma baseline_accumulates_across_requests_witness :
  ∃ first second : MacroDict,
    request_overrides (self Demo.first_request) = inr first
    ∧ request_overrides (self Demo.second_request) = inr second
    ∧ heap Demo.after_second !! 0
      = Some (second
              ∪ (first ∪ default ∅ (heap Demo.first_request !! 0))).
Proof.
  destruct (baseline_accumulates_across_requests
              Demo.first_request Demo.after_first
              Demo.second_request Demo.after_second
              (Demo.node Demo.with_macro "select {{ one() }} as id")
              (Demo.node Demo.select_1 "select 1 as id"))
    as (first & second & Hfirst & Hsecond & Hbase & _).
  - vm_compute. reflexivity.
  - reflexivity.
  - reflexivity.
  - vm_compute. reflexivity.
  - exists first, second.
    split; [exact Hfirst|]. split; [exact Hsecond|exact Hbase].
Defined.

Lemma baseline_never_loses_a_macro_witness :
  ∃ after : MacroDict,
    heap Demo.after_second !! 0 = Some after
    ∧ is_Some (after !! "macro.shop.one").
Proof.
  destruct (baseline_never_loses_a_macro
              Demo.second_request Demo.after_second
              (Ret (Demo.node Demo.select_1 "select 1 as id"))
              {[ "macro.shop.one" := Demo.macro_one ]}
              "macro.shop.one" Demo.macro_one)
    as (after & Hafter & Hkept & _).
  - vm_compute. reflexivity.
  - vm_compute. reflexivity.
  - vm_compute. reflexivity.
  - exists after. split; [exact Hafter|exact Hkept].
Defined.

Lemma extract_request_data_keeps_every_character_witness :
  ∃ sql macros,
    @_extract_request_data Demo.collaborators
      "select 1{% macro one() %}1{% endmacro %} from {% macro two() %}2{% endmacro %}x"
    = inr (sql, macros)
    ∧ String.length sql + String.length macros = 80.
Proof.
  exact (extract_request_data_keeps_every_character
     "select 1{% macro one() %}1{% endmacro %} from {% macro two() %}2{% endmacro %}x"
     "select 1{% macro one() %}1{% endmacro %} from {% macro two() %}2{% endmacro %}x"
     [ Demo.data_block "select 1";
       {| block_type_name := "macro";
          full_block := "{% macro one() %}1{% endmacro %}" |};
       Demo.data_block " from ";
       {| block_type_name := "macro";
          full_block := "{% macro two() %}2{% endmacro %}" |};
       Demo.data_block "x" ]
     eq_refl eq_refl).
Defined.

Lemma get_rpc_task_cls_ignores_enumeration_order_witness :
  RemoteRPCParameters.get_rpc_task_cls named_handlers Demo.cli_task
  = RemoteRPCParameters.get_rpc_task_cls (reverse named_handlers)
      Demo.cli_task.
Proof.
  apply get_rpc_task_cls_ignores_enumeration_order.
  - symmetry. apply reverse_Permutation.
  - compute_done.
Defined.

Lemma remote_py_method_names_resolve_to_their_class_witness :
  RemoteRPCParameters.get_rpc_task_cls (reverse named_handlers)
    {| task_cls := RemoteRPCParameters;
       task_args := {| rpc_method := Some "test"; which := Some "test";
                       models := None; exclude := None |};
       task_config := tt; task_manifest := tt |}
  = inr RemoteTestProjectTask.
Proof.
  refine (proj2 (remote_py_method_names_resolve_to_their_class
                   (reverse named_handlers) RemoteTestProjectTask
                   {| task_cls := RemoteRPCParameters;
                      task_args := {| rpc_method := Some "test";
                                      which := Some "test";
                                      models := None; exclude := None |};
                      task_config := tt; task_manifest := tt |}
                   _ _ eq_refl)).
  - apply reverse_Permutation.
  - compute_done.
Defined.

Lemma cli_request_fails_before_dispatch_witness :
  RemoteRPCParameters.request Demo.shlex_split Demo.parse_args
    named_handlers Demo.task_handle_request {| cli := "debug --models x" |}
    Demo.cli_task
  = inl (RuntimeException "invalid choice: debug").
Proof.
  exact (proj1 (proj2 (cli_request_fails_before_dispatch
                         Demo.shlex_split Demo.parse_args named_handlers
                         Demo.task_handle_request
                         {| cli := "debug --models x" |} Demo.cli_task))
           ["debug"; "--models"; "x"]
           (RuntimeException "invalid choice: debug") eq_refl eq_refl).
Defined.
